(** * OpenClaw desktop: gateway supervisor, config flows, chat events, exec helpers

    A shallow embedding of the Electron main process ([main.ts],
    [main/ipc/register.ts]) and of the renderer's onboarding and chat pages
    ([WelcomePage], [ChatPage]), with the properties the design document
    states about them.

    Conventions.
    - JavaScript strings are Rocq [string]s; a character stands for a code
      unit below 256.  [trim] removes the code units of the ECMAScript
      [WhiteSpace] and [LineTerminator] classes that fall in that range.
    - [number]s that the code only stores, compares with [===] or prints are
      integers ([Z]).
    - Module-level [let] variables become fields of an explicit state record,
      and every callback registered on an emitter becomes a case of a step
      function over the events that emitter can deliver. *)

From Stdlib Require Import ZArith String Ascii List Bool DecimalString.
From Stdlib Require Import Lia DecimalZ DecimalPos Sorted.
Import ListNotations.
Local Open Scope list_scope.
Local Open Scope string_scope.

(* ================================================================== *)
(** ** JavaScript string helpers *)
(* ================================================================== *)

Module JsString.

(** Code units removed by [String.prototype.trim]: TAB, LF, VT, FF, CR,
    SPACE and NBSP. *)
Definition is_ws (c : ascii) : bool :=
  let n := nat_of_ascii c in
  ((9 <=? n) && (n <=? 13) || (n =? 32) || (n =? 160))%nat.

Fixpoint trimStart (s : string) : string :=
  match s with
  | String c r => if is_ws c then trimStart r else s
  | EmptyString => EmptyString
  end.

Fixpoint trimEnd (s : string) : string :=
  match s with
  | String c r =>
      match trimEnd r with
      | EmptyString => if is_ws c then EmptyString else String c EmptyString
      | r' => String c r'
      end
  | EmptyString => EmptyString
  end.

Definition trim (s : string) : string := trimEnd (trimStart s).

(** JavaScript truthiness of a string: non-empty. *)
Definition truthy (s : string) : bool :=
  match s with EmptyString => false | _ => true end.

(** [String(n)] / template interpolation of an integer-valued number. *)
Definition show_Z (z : Z) : string := NilZero.string_of_int (Z.to_int z).

(** [needle] occurs in [hay]. *)
Definition occurs_in (needle hay : string) : Prop :=
  exists before after, hay = before ++ needle ++ after.

Definition ends_with (hay suffix : string) : Prop :=
  exists before, hay = before ++ suffix.

Definition starts_with (hay pre : string) : Prop :=
  exists after, hay = pre ++ after.

(** [hay.includes(needle)], by trying every position. *)
Fixpoint includes (needle hay : string) : bool :=
  String.prefix needle hay
  || match hay with
     | String _ rest => includes needle rest
     | EmptyString => false
     end.

End JsString.

(* ================================================================== *)
(** ** Helper binaries: [runCommandWithTimeout] and the exec IPC handlers *)
(* ================================================================== *)

Module Exec.
Import JsString.

Record ExecResult := mkExecResult {
  ok : bool;
  code : option Z;
  stdout : string;
  stderr : string;
  resolvedPath : option string
}.

Inductive Signal := SIGTERM | SIGKILL.

(** What the event loop can deliver to one [runCommandWithTimeout] call
    after [spawn]: data on the two pipes, the child's [close] (exit code,
    or [null] when a signal ended it) and [error] (already stringified the
    way [String(err)] does), and the expiry of the [setTimeout] timer. *)
Inductive Event :=
| StdoutData (chunk : string)
| StderrData (chunk : string)
| Close (exit_code : option Z)
| Error (err : string)
| TimerFired.

(** What [spawn(bin, args, options)] does.  Node reports EACCES, EAGAIN,
    EMFILE, ENFILE and ENOENT through the child's [error] event; any other
    failure of the system call (ENOTDIR when [cwd] is not a directory, for
    one) is thrown by [spawn] itself.  [evs] is what the event loop
    delivers for the child before the [timeoutMs] deadline. *)
Inductive Spawn :=
| Child (evs : list Event)
| Throws (err : string).

(** The executor is [(resolve) => ...], so no code of the call rejects the
    promise; but [spawn] runs inside the executor with no [try] around it,
    and an exception thrown by the executor rejects the promise. *)
Inductive Promise :=
| Pending
| Fulfilled (r : ExecResult)
| Rejected (err : string).

(** Closure variables of one call, plus the observable effects. *)
Record Run := mkRun {
  out_buf : string;            (* let stdout *)
  err_buf : string;            (* let stderr *)
  settled : bool;              (* let settled *)
  listening : bool;            (* the two "data" listeners are attached *)
  timer_armed : bool;          (* timer neither fired nor cleared *)
  signals : list Signal;       (* child.kill calls, oldest first *)
  resolve_calls : list ExecResult; (* arguments of resolve(), oldest first *)
  promise : Promise
}.

Definition spawned : Run :=
  {| out_buf := ""; err_buf := ""; settled := false; listening := true;
     timer_armed := true; signals := []; resolve_calls := [];
     promise := Pending |}.

(** [spawn] threw: the executor is left at once, before a listener is
    attached or the timer set, and the promise is rejected. *)
Definition thrown (err : string) : Run :=
  {| out_buf := ""; err_buf := ""; settled := false; listening := false;
     timer_armed := false; signals := []; resolve_calls := [];
     promise := Rejected err |}.

(** [resolve(result)]: the first call fulfils, later ones are ignored by
    the promise. *)
Definition resolve (result : ExecResult) (s : Run) : Run :=
  {| out_buf := out_buf s; err_buf := err_buf s; settled := settled s;
     listening := listening s; timer_armed := timer_armed s;
     signals := signals s;
     resolve_calls := (resolve_calls s ++ [result])%list;
     promise := match promise s with
                | Pending => Fulfilled result
                | p => p
                end |}.

Definition settle (result : ExecResult) (s : Run) : Run :=
  if settled s then s
  else resolve result
         {| out_buf := out_buf s; err_buf := err_buf s; settled := true;
            listening := false; timer_armed := timer_armed s;
            signals := signals s; resolve_calls := resolve_calls s;
            promise := promise s |}.

Definition clearTimer (s : Run) : Run :=
  {| out_buf := out_buf s; err_buf := err_buf s; settled := settled s;
     listening := listening s; timer_armed := false;
     signals := signals s; resolve_calls := resolve_calls s;
     promise := promise s |}.

Definition kill (sig : Signal) (s : Run) : Run :=
  {| out_buf := out_buf s; err_buf := err_buf s; settled := settled s;
     listening := listening s; timer_armed := timer_armed s;
     signals := (signals s ++ [sig])%list; resolve_calls := resolve_calls s;
     promise := promise s |}.

(** [`${stderr}${stderr.trim() ? "\n" : ""}${tail}`] *)
Definition newline : string := String (ascii_of_nat 10) "".

Definition with_trailer (err tail : string) : string :=
  err ++ (if truthy (trim err) then newline else "") ++ tail.

Definition timeout_message (timeoutMs : Z) : string :=
  "timeout after " ++ show_Z timeoutMs ++ "ms".

Section OneCall.
Variable bin : string.
Variable timeoutMs : Z.

Definition timeout_result (s : Run) : ExecResult :=
  {| ok := false; code := None; stdout := out_buf s;
     stderr := with_trailer (err_buf s) (timeout_message timeoutMs);
     resolvedPath := Some bin |}.

Definition close_result (exit_code : option Z) (s : Run) : ExecResult :=
  {| ok := match exit_code with Some 0%Z => true | _ => false end;
     code := exit_code; stdout := out_buf s; stderr := err_buf s;
     resolvedPath := Some bin |}.

Definition error_result (err : string) (s : Run) : ExecResult :=
  {| ok := false; code := None; stdout := out_buf s;
     stderr := with_trailer (err_buf s) err;
     resolvedPath := Some bin |}.

Definition step (s : Run) (e : Event) : Run :=
  match e with
  | StdoutData chunk =>
      if listening s then
        {| out_buf := out_buf s ++ chunk; err_buf := err_buf s;
           settled := settled s; listening := listening s;
           timer_armed := timer_armed s; signals := signals s;
           resolve_calls := resolve_calls s; promise := promise s |}
      else s
  | StderrData chunk =>
      if listening s then
        {| out_buf := out_buf s; err_buf := err_buf s ++ chunk;
           settled := settled s; listening := listening s;
           timer_armed := timer_armed s; signals := signals s;
           resolve_calls := resolve_calls s; promise := promise s |}
      else s
  | TimerFired =>
      if timer_armed s then
        let s1 := kill SIGKILL (clearTimer s) in
        settle (timeout_result s1) s1
      else s
  | Close exit_code =>
      let s1 := clearTimer s in
      settle (close_result exit_code s1) s1
  | Error err =>
      let s1 := clearTimer s in
      settle (error_result err s1) s1
  end.

Definition run (evs : list Event) : Run := fold_left step evs spawned.

(** The call as its caller sees it.  With a child, [evs] are the events
    the child and its pipes deliver before the [timeoutMs] deadline; when
    none of them cleared the timer, the timer fires at the deadline. *)
Definition runCommandWithTimeout (sp : Spawn) : Run :=
  match sp with
  | Child evs =>
      let s := run evs in
      if timer_armed s then step s TimerFired else s
  | Throws err => thrown err
  end.

End OneCall.

(** *** The IPC handlers built on it *)

(** What [spawnSync] hands back with [encoding: "utf-8"]: [status] is the
    exit code or [null]; the two outputs are strings, or [null] when the
    process could not be started. *)
Record SpawnSyncReturns := mkSpawnSyncReturns {
  status : option Z;
  sync_stdout : option string;
  sync_stderr : option string
}.

(** [String(x || "")] for [x : string | null]. *)
Definition or_empty (x : option string) : string :=
  match x with Some v => v | None => "" end.

Definition memo_missing (memoBin : string) : string :=
  "memo binary not found at: " ++ memoBin ++ newline
  ++ "Run: cd apps/electron-desktop && npm run prepare:memo:all".

Definition remindctl_missing (remindctlBin : string) : string :=
  ("remindctl binary not found at: " ++ remindctlBin ++ newline)
  ++ "Run: cd apps/electron-desktop && npm run prepare:remindctl:all".

(** [ipcMain.handle("memo-check", ...)].  [exists_] is the answer of
    [fs.existsSync(memoBin)], [res] what [spawnSync(memoBin, ["--help"])]
    returns when it is reached. *)
Definition memo_check (memoBin : string) (exists_ : bool)
    (res : SpawnSyncReturns) : ExecResult :=
  if negb exists_ then
    {| ok := false; code := None; stdout := "";
       stderr := memo_missing memoBin; resolvedPath := None |}
  else
    {| ok := match status res with Some 0%Z => true | _ => false end;
       code := status res;
       stdout := or_empty (sync_stdout res);
       stderr := or_empty (sync_stderr res);
       resolvedPath := Some memoBin |}.

(** [ipcMain.handle("remindctl-authorize", ...)] and
    [ipcMain.handle("remindctl-today-json", ...)]: the same body up to the
    arguments and the timeout (120 s and 20 s).  The result is the promise
    of the [async] handler: it [return await]s the call, so it is rejected
    (the handler throws to its caller) when the call's promise is. *)
Definition remindctl (timeoutMs : Z) (remindctlBin : string) (exists_ : bool)
    (sp : Spawn) : Promise :=
  if negb exists_ then
    Fulfilled {| ok := false; code := None; stdout := "";
                 stderr := remindctl_missing remindctlBin;
                 resolvedPath := None |}
  else promise (runCommandWithTimeout remindctlBin timeoutMs sp).

Definition remindctl_authorize := remindctl 120000.
Definition remindctl_today_json := remindctl 20000.

(** *** Vocabulary for the statements *)

Definition is_data (e : Event) : bool :=
  match e with StdoutData _ | StderrData _ => true | _ => false end.

(** Text written to the two pipes by a list of events. *)
Fixpoint captured_stdout (evs : list Event) : string :=
  match evs with
  | StdoutData c :: r => c ++ captured_stdout r
  | _ :: r => captured_stdout r
  | [] => ""
  end.

Fixpoint captured_stderr (evs : list Event) : string :=
  match evs with
  | StderrData c :: r => c ++ captured_stderr r
  | _ :: r => captured_stderr r
  | [] => ""
  end.

(** The first event of a list that is not pipe data, with the data before
    it. *)
Fixpoint first_settling (evs : list Event) : option (list Event * Event) :=
  match evs with
  | [] => None
  | e :: r =>
      if is_data e then
        match first_settling r with
        | Some (pre, x) => Some (e :: pre, x)
        | None => None
        end
      else Some ([], e)
  end.

(** The result each of the three settling callbacks builds, given the pipe
    data seen before it. *)
Definition verdict (bin : string) (timeoutMs : Z) (pre : list Event)
    (e : Event) : ExecResult :=
  match e with
  | Close c =>
      {| ok := match c with Some 0%Z => true | _ => false end; code := c;
         stdout := captured_stdout pre; stderr := captured_stderr pre;
         resolvedPath := Some bin |}
  | Error err =>
      {| ok := false; code := None; stdout := captured_stdout pre;
         stderr := with_trailer (captured_stderr pre) err;
         resolvedPath := Some bin |}
  | _ =>
      {| ok := false; code := None; stdout := captured_stdout pre;
         stderr := with_trailer (captured_stderr pre)
                     (timeout_message timeoutMs);
         resolvedPath := Some bin |}
  end.

(** What holds of every reachable state of a call: before the first
    settling event nothing is resolved and the timer is armed; after it the
    promise holds exactly the one value passed to [resolve]. *)
Definition consistent (s : Run) : Prop :=
  if settled s then
    timer_armed s = false /\ listening s = false /\
    exists r, promise s = Fulfilled r /\ resolve_calls s = [r]
  else
    timer_armed s = true /\ listening s = true /\
    promise s = Pending /\ resolve_calls s = [] /\ signals s = [].

End Exec.

(* ================================================================== *)
(** ** JSON documents as the renderer sees them *)
(* ================================================================== *)

Module Json.
Import JsString.

#[local] Set Warnings "-register-all".

(** A parsed JSON value.  An object keeps its properties in insertion
    order, as a JavaScript object does for string keys. *)
Inductive json :=
| JNull
| JBool (b : bool)
| JNum (n : Z)
| JStr (s : string)
| JArr (items : list json)
| JObj (fields : list (string * json)).

Definition object := list (string * json).

(** [o[k]]: [None] stands for [undefined]. *)
Fixpoint obj_get (k : string) (o : object) : option json :=
  match o with
  | [] => None
  | (k', v) :: r => if String.eqb k k' then Some v else obj_get k r
  end.

(** [o[k] = v]: an existing property keeps its place, a new one goes
    last. *)
Fixpoint obj_set (k : string) (v : json) (o : object) : object :=
  match o with
  | [] => [(k, v)]
  | (k', v') :: r =>
      if String.eqb k k' then (k', v) :: r else (k', v') :: obj_set k v r
  end.

(** [{...a, ...b}]: every property of [b] assigned, in order, onto a copy
    of [a]. *)
Definition obj_spread (a b : object) : object :=
  fold_left (fun acc kv => obj_set (fst kv) (snd kv) acc) b a.

(** [getObject(value)] *)
Definition getObject (value : option json) : object :=
  match value with
  | Some (JObj o) => o
  | _ => []
  end.

Definition comma : string := ",".

Fixpoint join (sep : string) (parts : list string) : string :=
  match parts with
  | [] => ""
  | [x] => x
  | x :: r => x ++ sep ++ join sep r
  end.

(** [String(v)] on a parsed JSON value.  [Array.prototype.toString] joins
    with commas and prints [null] elements as the empty string; integers
    are printed in decimal (as JavaScript does below 10^21). *)
Fixpoint js_String (v : json) : string :=
  match v with
  | JNull => "null"
  | JBool true => "true"
  | JBool false => "false"
  | JNum n => show_Z n
  | JStr s => s
  | JArr items =>
      join comma
        (map (fun x => match x with JNull => "" | _ => js_String x end) items)
  | JObj _ => "[object Object]"
  end.

(** [getStringArray(value)] *)
Definition getStringArray (value : option json) : list string :=
  match value with
  | Some (JArr items) =>
      filter truthy (map (fun v => trim (js_String v)) items)
  | _ => []
  end.

(** [new Set(list)] keeps the first occurrence of each element, in
    insertion order; [Array.from] reads them back in that order. *)
Definition Set_has (s : list string) (x : string) : bool :=
  existsb (String.eqb x) s.

Definition Set_add (s : list string) (x : string) : list string :=
  if Set_has s x then s else (s ++ [x])%list.

Definition new_Set (l : list string) : list string :=
  fold_left Set_add l [].

(** [unique(list)] *)
Definition unique (l : list string) : list string := new_Set l.

(** In the words of the design document: the same list, order preserved,
    duplicates removed.  Each element stays where it first occurs and its
    later occurrences go. *)
Fixpoint first_occurrences (l : list string) : list string :=
  match l with
  | [] => []
  | x :: r => x :: filter (fun y => negb (String.eqb y x)) (first_occurrences r)
  end.

(** [typeof o.k === "string" ? o.k.trim() : ""] *)
Definition trimmed_string (o : object) (k : string) : string :=
  match obj_get k o with
  | Some (JStr s) => trim s
  | _ => ""
  end.

(** [typeof o.k === "number" && Number.isFinite(o.k) ? o.k : null] *)
Definition finite_number (o : object) (k : string) : option Z :=
  match obj_get k o with
  | Some (JNum n) => Some n
  | _ => None
  end.

Definition option_Z_eqb (a b : option Z) : bool :=
  match a, b with
  | Some x, Some y => Z.eqb x y
  | None, None => true
  | _, _ => false
  end.

(** Reading along a path of property names, through [getObject] at every
    step but the last. *)
Fixpoint at_path (path : list string) (v : json) : option json :=
  match path with
  | [] => Some v
  | k :: r =>
      match v with
      | JObj o =>
          match obj_get k o with
          | Some w => at_path r w
          | None => None
          end
      | _ => None
      end
  end.

End Json.

(* ================================================================== *)
(** ** The onboarding flows of [WelcomePage] *)
(* ================================================================== *)

Module Welcome.
Import JsString Json.

(** [type ConfigSnapshot]; every field is optional in the source. *)
Record ConfigSnapshot := mkConfigSnapshot {
  path : option string;
  exists_ : option bool;
  valid : option bool;
  hash : option string;
  config : option json
}.

(** Calls that leave the renderer: gateway RPCs ([gw.request]) and the one
    desktop IPC the flows use.  [raw] is kept as the document that
    [JSON.stringify(doc, null, 2)] prints. *)
Inductive Request :=
| ConfigGet
| ConfigSet (raw : json)
| ConfigPatch (baseHash : string) (raw : json) (note : string)
| ChannelsStatus (probe : bool) (timeoutMs : Z)
| SetApiKey (provider apiKey : string).

(** The other side of those calls: the snapshot [config.get] answers with,
    which calls reject (with which error), and whether the preload script
    has put [window.openclawDesktop] in place. *)
Record Gateway := mkGateway {
  snapshot : ConfigSnapshot;
  rejects : Request -> option string;
  desktop_api : bool
}.

Inductive Outcome (A : Type) :=
| Returned (a : A)
| Threw (err : string).
Arguments Returned {A} a.
Arguments Threw {A} err.

(** An async function of the page: it appends to the log of calls issued
    so far and returns or throws.  The React state setters ([setStatus],
    [setError], ...) only drive what the page shows and are left out. *)
Definition Flow (A : Type) := list Request -> list Request * Outcome A.

Definition ret {A} (a : A) : Flow A := fun log => (log, Returned a).

Definition throw {A} (err : string) : Flow A := fun log => (log, Threw err).

Definition bind {A B} (m : Flow A) (k : A -> Flow B) : Flow B :=
  fun log =>
    match m log with
    | (log', Returned a) => k a log'
    | (log', Threw err) => (log', Threw err)
    end.

Notation "x <- m ;; k" := (bind m (fun x => k))
  (at level 61, m at next level, right associativity).
Notation "m ;;; k" := (bind m (fun _ => k))
  (at level 61, right associativity).

(** [try { m } catch { /* ignore */ }] *)
Definition attempt {A} (m : Flow A) : Flow unit :=
  fun log => (fst (m log), Returned tt).

Definition hash_missing : string :=
  "Config base hash missing. Reload and try again.".

(** [typeof snap.hash === "string" && snap.hash.trim() ? snap.hash.trim() : null] *)
Definition baseHash_of (snap : ConfigSnapshot) : option string :=
  match hash snap with
  | Some h => if truthy (trim h) then Some (trim h) else None
  | None => None
  end.

Fixpoint includes_char (c : ascii) (s : string) : bool :=
  match s with
  | EmptyString => false
  | String x r => Ascii.eqb x c || includes_char c r
  end.

(** [s.lastIndexOf(c)], [None] for [-1]. *)
Fixpoint lastIndexOf (c : ascii) (s : string) : option nat :=
  match s with
  | EmptyString => None
  | String x r =>
      match lastIndexOf c r with
      | Some i => Some (S i)
      | None => if Ascii.eqb x c then Some 0%nat else None
      end
  end.

Definition backslash : ascii := ascii_of_nat 92.
Definition slash : ascii := ascii_of_nat 47.

(** [inferWorkspaceDirFromConfigPath(configPath)] *)
Definition inferWorkspaceDirFromConfigPath (configPath : option string)
    : string :=
  let raw := match configPath with Some p => trim p | None => "" end in
  if negb (truthy raw) then "~/openclaw-workspace"
  else
    let sep := if includes_char backslash raw then backslash else slash in
    match lastIndexOf sep raw with
    | None | Some O => "~/openclaw-workspace"
    | Some idx => substring 0 idx raw ++ String sep "workspace"
    end.

(** ASCII case folding, as the [i] flag applies it to the letters of
    [telegram] and [tg]. *)
Definition ascii_lower (c : ascii) : ascii :=
  let n := nat_of_ascii c in
  if ((65 <=? n) && (n <=? 90))%nat then ascii_of_nat (n + 32) else c.

(** [String.prototype.toLowerCase] on code units below 256. *)
Definition lower_char (c : ascii) : ascii :=
  let n := nat_of_ascii c in
  if ((65 <=? n) && (n <=? 90))%nat
     || ((192 <=? n) && (n <=? 222) && negb (n =? 215))%nat
  then ascii_of_nat (n + 32) else c.

Fixpoint map_string (f : ascii -> ascii) (s : string) : string :=
  match s with
  | EmptyString => EmptyString
  | String c r => String (f c) (map_string f r)
  end.

Definition toLowerCase : string -> string := map_string lower_char.

Fixpoint drop (n : nat) (s : string) : string :=
  match n, s with
  | S m, String _ r => drop m r
  | _, _ => s
  end.

(** [raw.replace(/^(telegram|tg):/i, "")] *)
Definition strip_channel_prefix (raw : string) : string :=
  let folded := map_string ascii_lower raw in
  if prefix "telegram:" folded then drop 9 raw
  else if prefix "tg:" folded then drop 3 raw
  else raw.

Definition is_digit (c : ascii) : bool :=
  let n := nat_of_ascii c in ((48 <=? n) && (n <=? 57))%nat.

Fixpoint all_chars (p : ascii -> bool) (s : string) : bool :=
  match s with
  | EmptyString => true
  | String c r => p c && all_chars p r
  end.

(** [/^\d+$/.test(s)] *)
Definition digits_only (s : string) : bool :=
  truthy s && all_chars is_digit s.

(** The id [saveTelegramAllowFrom] adds for a trimmed, non-empty input. *)
Definition normalize_user_id (raw : string) : string :=
  let stripped := trim (strip_channel_prefix raw) in
  if digits_only stripped then stripped else raw.

Definition obj_is_empty (o : object) : bool :=
  match o with [] => true | _ => false end.

Section Flows.

(** [gw]: the connection obtained from [useGatewayRpc()].  [state_port] and
    [state_token] are [state.port] and [state.token] of the [ready] gateway
    state handed to the page. *)
Variable gw : Gateway.
Variable state_port : Z.
Variable state_token : string.

(** [await gw.request(method, params)] (also [setApiKey] over IPC). *)
Definition request (r : Request) : Flow unit :=
  fun log =>
    ((log ++ [r])%list,
     match rejects gw r with
     | Some err => Threw err
     | None => Returned tt
     end).

Definition loadConfig : Flow ConfigSnapshot :=
  request ConfigGet ;;; ret (snapshot gw).

(** The lines every patching flow repeats before [config.patch]:
    [if (!baseHash) throw new Error(...)]. *)
Definition requireBaseHash (snap : ConfigSnapshot) : Flow string :=
  match baseHash_of snap with
  | Some h => ret h
  | None => throw hash_missing
  end.

(** The [gateway] and [agents] entries [ensureExtendedConfig] computes. *)
Definition needsGateway (gateway gatewayAuth : object) : bool :=
  let authToken := trimmed_string gatewayAuth "token" in
  let authMode := trimmed_string gatewayAuth "mode" in
  let port := finite_number gateway "port" in
  let bind_ := trimmed_string gateway "bind" in
  let mode := trimmed_string gateway "mode" in
  negb (mode =? "local")
  || negb (bind_ =? "loopback")
  || negb (option_Z_eqb port (Some state_port))
  || negb (authMode =? "token")
  || negb (authToken =? state_token).

Definition gateway_entry (gateway gatewayAuth : object) : json :=
  JObj (obj_spread gateway
          [("mode", JStr "local");
           ("bind", JStr "loopback");
           ("port", JNum state_port);
           ("auth", JObj (obj_spread gatewayAuth
                            [("mode", JStr "token");
                             ("token", JStr state_token)]))]).

Definition agents_entry (agents defaults : object) (workspace : string)
    : json :=
  JObj (obj_spread agents
          [("defaults",
            JObj (obj_spread defaults [("workspace", JStr workspace)]))]).

Definition onboarding_patch (snap : ConfigSnapshot) : object :=
  let cfg := getObject (config snap) in
  let gateway := getObject (obj_get "gateway" cfg) in
  let gatewayAuth := getObject (obj_get "auth" gateway) in
  let agents := getObject (obj_get "agents" cfg) in
  let defaults := getObject (obj_get "defaults" agents) in
  let currentWorkspace := trimmed_string defaults "workspace" in
  let workspace :=
    if truthy currentWorkspace then currentWorkspace
    else inferWorkspaceDirFromConfigPath (path snap) in
  let patch : object := [] in
  let patch :=
    if needsGateway gateway gatewayAuth
    then obj_set "gateway" (gateway_entry gateway gatewayAuth) patch
    else patch in
  let patch :=
    if negb (truthy currentWorkspace)
    then obj_set "agents" (agents_entry agents defaults workspace) patch
    else patch in
  patch.

Definition ensureExtendedConfig : Flow unit :=
  snap <- loadConfig ;;
  let cfg := getObject (config snap) in
  let patch := onboarding_patch snap in
  match exists_ snap with
  | Some false =>
      let seeded := obj_spread cfg patch in
      request (ConfigSet (JObj seeded))
  | _ =>
      if obj_is_empty patch then ret tt
      else
        baseHash <- requireBaseHash snap ;;
        request (ConfigPatch baseHash (JObj patch)
                   "Welcome: ensure onboarding defaults (workspace/gateway)")
  end.

Definition saveApiKey (provider apiKey : string) : Flow bool :=
  if negb (truthy (trim apiKey)) then ret false
  else
    (if desktop_api gw then request (SetApiKey provider (trim apiKey))
     else ret tt) ;;;
    snap <- loadConfig ;;
    baseHash <- requireBaseHash snap ;;
    let profileId := provider ++ ":default" in
    request (ConfigPatch baseHash
               (JObj [("auth",
                       JObj [("profiles",
                              JObj [(profileId,
                                     JObj [("provider", JStr provider);
                                           ("mode", JStr "api_key")])]);
                             ("order",
                              JObj [(provider, JArr [JStr profileId])])])])
               ("Welcome: enable " ++ provider ++ " api_key profile")) ;;;
    ret true.

Definition saveDefaultModel (modelId : string) : Flow bool :=
  snap <- loadConfig ;;
  baseHash <- requireBaseHash snap ;;
  request (ConfigPatch baseHash
             (JObj [("agents",
                     JObj [("defaults",
                            JObj [("model",
                                   JObj [("primary", JStr modelId)]);
                                  ("models",
                                   JObj [(modelId, JObj [])])])])])
             "Welcome: set default model") ;;;
  ret true.

Definition saveTelegramToken (telegramToken : string) : Flow bool :=
  let token := trim telegramToken in
  if negb (truthy token) then ret false
  else
    snap <- loadConfig ;;
    baseHash <- requireBaseHash snap ;;
    request (ConfigPatch baseHash
               (JObj [("channels",
                       JObj [("telegram",
                              JObj [("enabled", JBool true);
                                    ("botToken", JStr token)])])])
               "Welcome: configure Telegram bot token") ;;;
    ret true.

(** The list [saveTelegramAllowFrom] reads and the list it writes. *)
Definition existing_allowFrom (snap : ConfigSnapshot) : list string :=
  let cfg := getObject (config snap) in
  let channels := getObject (obj_get "channels" cfg) in
  let telegram := getObject (obj_get "telegram" channels) in
  getStringArray (obj_get "allowFrom" telegram).

Definition json_strings (l : list string) : json := JArr (map JStr l).

Definition saveTelegramAllowFrom (telegramUserId : string) : Flow bool :=
  let raw := trim telegramUserId in
  if negb (truthy raw) then ret false
  else
    let id := normalize_user_id raw in
    snap <- loadConfig ;;
    let allowFrom := existing_allowFrom snap in
    let merged := unique (allowFrom ++ [id])%list in
    baseHash <- requireBaseHash snap ;;
    request (ConfigPatch baseHash
               (JObj [("channels",
                       JObj [("telegram",
                              JObj [("enabled", JBool true);
                                    ("dmPolicy", JStr "allowlist");
                                    ("allowFrom", json_strings merged)])])])
               "Welcome: configure Telegram allowFrom") ;;;
    attempt (request (ChannelsStatus true 12000)) ;;;
    ret true.

(** [typeof o.k === "string" && o.k.trim() ? o.k.trim() : fallback] *)
Definition trimmed_or (o : object) (k fallback : string) : string :=
  let v := trimmed_string o k in
  if truthy v then v else fallback.

Definition ensureGogExecDefaults : Flow unit :=
  request ConfigGet ;;;
  let snap := snapshot gw in
  baseHash <- requireBaseHash snap ;;
  let cfg := getObject (config snap) in
  let tools := getObject (obj_get "tools" cfg) in
  let exec := getObject (obj_get "exec" tools) in
  let existingSafeBins := getStringArray (obj_get "safeBins" exec) in
  let safeBins :=
    unique (map toLowerCase (existingSafeBins ++ ["gog"])%list) in
  let host := trimmed_or exec "host" "gateway" in
  let security := trimmed_or exec "security" "allowlist" in
  let ask := trimmed_or exec "ask" "on-miss" in
  request (ConfigPatch baseHash
             (JObj [("tools",
                     JObj [("exec",
                            JObj [("host", JStr host);
                                  ("security", JStr security);
                                  ("ask", JStr ask);
                                  ("safeBins", json_strings safeBins)])])])
             "Welcome: ensure gog exec defaults").

(** The six callbacks of the page that issue [config.patch]. *)
Inductive PatchFlow :=
| EnsureExtendedConfig
| SaveApiKey (provider apiKey : string)
| SaveDefaultModel (modelId : string)
| SaveTelegramToken (telegramToken : string)
| SaveTelegramAllowFrom (telegramUserId : string)
| EnsureGogExecDefaults.

Definition discard {A} (m : Flow A) : Flow unit := m ;;; ret tt.

Definition run_flow (f : PatchFlow) : list Request * Outcome unit :=
  match f with
  | EnsureExtendedConfig => ensureExtendedConfig []
  | SaveApiKey provider apiKey => discard (saveApiKey provider apiKey) []
  | SaveDefaultModel modelId => discard (saveDefaultModel modelId) []
  | SaveTelegramToken t => discard (saveTelegramToken t) []
  | SaveTelegramAllowFrom u => discard (saveTelegramAllowFrom u) []
  | EnsureGogExecDefaults => ensureGogExecDefaults []
  end.

End Flows.

(** A gateway that accepts every call and answers [config.get] with
    [snap]. *)
Definition agreeable (snap : ConfigSnapshot) : Gateway :=
  {| snapshot := snap; rejects := fun _ => None; desktop_api := true |}.


(** A configuration whose Telegram allow-list holds [allowFrom]. *)
Definition telegram_snapshot (allowFrom : list json) : ConfigSnapshot :=
  {| path := Some "/Users/u/openclaw/openclaw.json";
     exists_ := Some true; valid := Some true; hash := Some "h1";
     config :=
       Some (JObj [("channels",
                    JObj [("telegram",
                           JObj [("enabled", JBool true);
                                 ("allowFrom", JArr allowFrom)])])]) |}.

(** A run of a flow gets as far as its [config.patch] call site: its input
    passed the flow's own validation, the calls before that call site went
    through, and (for [ensureExtendedConfig]) the configuration exists and
    something is left to patch. *)
Definition reaches_patch (gw : Gateway) (state_port : Z)
    (state_token : string) (f : PatchFlow) : bool :=
  match rejects gw ConfigGet with
  | Some _ => false
  | None =>
      match f with
      | EnsureExtendedConfig =>
          match exists_ (snapshot gw) with
          | Some false => false
          | _ => negb (obj_is_empty
                         (onboarding_patch state_port state_token
                            (snapshot gw)))
          end
      | SaveApiKey provider apiKey =>
          truthy (trim apiKey)
          && (negb (desktop_api gw)
              || match rejects gw (SetApiKey provider (trim apiKey)) with
                 | Some _ => false
                 | None => true
                 end)
      | SaveDefaultModel _ => true
      | SaveTelegramToken t => truthy (trim t)
      | SaveTelegramAllowFrom u => truthy (trim u)
      | EnsureGogExecDefaults => true
      end
  end.

End Welcome.

(* ================================================================== *)
(** ** The Gateway's side of [config.patch] *)
(* ================================================================== *)

Module ConfigProtocol.
Import JsString Json.

(** Modelled from the spec: the merge the Gateway applies, which is not
    among these sources.  Objects merge key by key, recursively; anything
    else (arrays included) replaces what was there. *)
Fixpoint merge (patch base : json) {struct patch} : json :=
  match patch, base with
  | JObj p, JObj b =>
      JObj ((fix merge_fields (p : list (string * json)) (acc : object)
               {struct p} : object :=
               match p with
               | [] => acc
               | (k, v) :: r =>
                   merge_fields r
                     (obj_set k
                        (match obj_get k acc with
                         | Some old => merge v old
                         | None => v
                         end) acc)
               end) p b)
  | _, _ => patch
  end.

Inductive PatchError :=
| BaseHashMissing
| BaseHashStale
| PatchInvalid.

Inductive Reply :=
| Accepted
| Rejected (why : PatchError).

Section Server.

(** How the Gateway fingerprints, reads and writes the configuration
    file. *)
Variable fingerprint : string -> string.
Variable parse : string -> option json.
Variable render : json -> string.

(** Modelled from the spec: the Gateway's [config.patch] handler, which is
    not among these sources.  [persisted] is the content of the
    configuration file.  The patch is accepted only when [baseHash] equals
    the fingerprint of the file at this moment; a missing or different
    [baseHash] is rejected with its own error and nothing is written. *)
Definition config_patch (persisted : string) (baseHash : option string)
    (raw : string) : string * Reply :=
  match baseHash with
  | None => (persisted, Rejected BaseHashMissing)
  | Some h =>
      if String.eqb h (fingerprint persisted) then
        match parse raw, parse persisted with
        | Some patch, Some current =>
            (render (merge patch current), Accepted)
        | _, _ => (persisted, Rejected PatchInvalid)
        end
      else (persisted, Rejected BaseHashStale)
  end.

End Server.

End ConfigProtocol.

(* ================================================================== *)
(** ** [ChatPage]: from gateway events to store actions *)
(* ================================================================== *)

Module Chat.
Import JsString Json.

(** The four values of [state]; [Failure] is ["error"]. *)
Inductive RunState := Delta | Final | Aborted | Failure.

(** [type ChatEvent] *)
Record ChatEvent := mkChatEvent {
  runId : string;
  sessionKey : string;
  seq : Z;
  state : RunState;
  message : option json;
  errorMessage : option string
}.

(** What [gw.onEvent] delivers: [{event, payload}]. *)
Record GatewayEvent := mkGatewayEvent {
  event : string;
  payload : ChatEvent
}.

(** The payloads of the four [chatActions] the page dispatches. *)
Inductive Action :=
| streamDeltaReceived (runId text : string)
| streamFinalReceived (runId : string) (seq : Z) (text : string)
| streamErrorReceived (runId : string) (errorMessage : option string)
| streamAborted (runId : string).

(** Modelled from the spec: [extractText] of the chat slice, which is not
    among these sources.  A literal string is used verbatim; in a structured
    document the non-empty text-typed segments of its content list are
    concatenated in order; anything else gives the empty string. *)
Definition segment_text (seg : json) : string :=
  match seg with
  | JObj o =>
      match obj_get "type" o, obj_get "text" o with
      | Some (JStr "text"), Some (JStr t) => t
      | _, _ => ""
      end
  | _ => ""
  end.

Definition extractText (msg : option json) : string :=
  match msg with
  | Some (JStr s) => s
  | Some (JObj o) =>
      match obj_get "content" o with
      | Some (JArr segs) => String.concat "" (map segment_text segs)
      | _ => ""
      end
  | _ => ""
  end.

(** The session the page is bound to: [const sessionKey = "main"]. *)
Definition page_session : string := "main".

(** The callback passed to [gw.onEvent]: the action it dispatches, if
    any. *)
Definition onEvent (evt : GatewayEvent) : option Action :=
  if negb (event evt =? "chat") then None
  else
    let p := payload evt in
    if negb (sessionKey p =? page_session) then None
    else
      match state p with
      | Delta =>
          Some (streamDeltaReceived (runId p) (extractText (message p)))
      | Final =>
          Some (streamFinalReceived (runId p) (seq p)
                  (extractText (message p)))
      | Failure => Some (streamErrorReceived (runId p) (errorMessage p))
      | Aborted => Some (streamAborted (runId p))
      end.

Section Store.

(** The chat slice of the store is not among these sources.  Whatever it
    is, it is a reducer: the next state is a function of the current state
    and the dispatched action. *)
Variable Store : Type.
Variable reducer : Store -> Action -> Store.

Definition deliver (s : Store) (evt : GatewayEvent) : Store :=
  match onEvent evt with
  | Some a => reducer s a
  | None => s
  end.

Definition deliver_all (s : Store) (evts : list GatewayEvent) : Store :=
  fold_left deliver evts s.

End Store.

(** A [chat] event for the page's session. *)
Definition chat_event (r : string) (n : Z) (st : RunState)
    (msg : option json) (err : option string) : GatewayEvent :=
  {| event := "chat";
     payload := {| runId := r; sessionKey := page_session; seq := n;
                   state := st; message := msg; errorMessage := err |} |}.

Definition delta (r : string) (n : Z) (text : string) : GatewayEvent :=
  chat_event r n Delta (Some (JStr text)) None.

(** Highest sequence number among the [delta] events of run [r] that the
    page has consumed. *)
Definition consumed_delta (r : string) (evt : GatewayEvent) : bool :=
  (event evt =? "chat") && (sessionKey (payload evt) =? page_session)
  && (runId (payload evt) =? r)
  && match state (payload evt) with Delta => true | _ => false end.

Definition highest_seq (r : string) (evts : list GatewayEvent) : option Z :=
  fold_left
    (fun acc evt =>
       if consumed_delta r evt then
         match acc with
         | Some m => Some (Z.max m (seq (payload evt)))
         | None => Some (seq (payload evt))
         end
       else acc)
    evts None.

(** Modelled from the spec: the state of the chat slice, which is not
    among these sources.  [streamByRun] maps the active runs to their
    accumulated text, [messages] is the committed transcript. *)
Record ChatStore := mkChatStore {
  messages : list string;
  streamByRun : list (string * string)
}.

Fixpoint run_text (r : string) (runs : list (string * string))
    : option string :=
  match runs with
  | [] => None
  | (k, t) :: rest => if String.eqb r k then Some t else run_text r rest
  end.

Fixpoint run_put (r t : string) (runs : list (string * string))
    : list (string * string) :=
  match runs with
  | [] => [(r, t)]
  | (k, old) :: rest =>
      if String.eqb r k then (k, t) :: rest else (k, old) :: run_put r t rest
  end.

Fixpoint run_remove (r : string) (runs : list (string * string))
    : list (string * string) :=
  match runs with
  | [] => []
  | (k, t) :: rest =>
      if String.eqb r k then run_remove r rest else (k, t) :: run_remove r rest
  end.

(** Modelled from the spec: the reducers of the chat slice, which are not
    among these sources.  A delta appends its text to the run's
    accumulator, creating the run when unseen; [final] commits the
    accumulated (or event-supplied) text and removes the run, and does
    nothing for a run that is not active; [error] and [aborted] remove the
    run without a transcript entry. *)
Definition spec_reducer (s : ChatStore) (a : Action) : ChatStore :=
  match a with
  | streamDeltaReceived r text =>
      let so_far := match run_text r (streamByRun s) with
                    | Some t => t
                    | None => ""
                    end in
      {| messages := messages s;
         streamByRun := run_put r (so_far ++ text) (streamByRun s) |}
  | streamFinalReceived r _ text =>
      match run_text r (streamByRun s) with
      | Some t =>
          {| messages := (messages s ++ [if truthy t then t else text])%list;
             streamByRun := run_remove r (streamByRun s) |}
      | None => s
      end
  | streamErrorReceived r _ | streamAborted r =>
      {| messages := messages s;
         streamByRun := run_remove r (streamByRun s) |}
  end.

Definition empty_store : ChatStore :=
  {| messages := []; streamByRun := [] |}.

Definition accumulated (r : string) (s : ChatStore) : string :=
  match run_text r (streamByRun s) with
  | Some t => t
  | None => ""
  end.

(** The property the design document states: a delta whose sequence
    number does not exceed the highest one already consumed for its run
    leaves the run's accumulated text as it was. *)
Definition drops_stale_deltas {Store : Type}
    (reducer : Store -> Action -> Store) (init : Store)
    (text_of : string -> Store -> string) : Prop :=
  forall (evts : list GatewayEvent) (r : string) (n m : Z) (text : string),
    highest_seq r evts = Some m -> (n <= m)%Z ->
    text_of r (deliver_all Store reducer init (evts ++ [delta r n text])%list)
    = text_of r (deliver_all Store reducer init evts).

End Chat.

(* ================================================================== *)
(** ** The main process: gateway child, window, state broadcast *)
(* ================================================================== *)

Module Supervisor.
Import JsString.

Inductive Signal := SIGTERM | SIGKILL.

(** [type GatewayState] *)
Inductive GatewayState :=
| Starting (port : Z) (logsDir token : string)
| Ready (port : Z) (logsDir url token : string)
| Failed (port : Z) (logsDir details token : string).

(** A Node [ChildProcess] object together with the OS process behind it.
    [killed] is Node's property of that name: it is set when
    [subprocess.kill()] has successfully sent a signal, and says nothing
    about whether the process has ended. *)
Record ChildProcess := mkChildProcess {
  running : bool;              (* the OS process has not exited *)
  killed : bool;               (* child.killed *)
  kill_calls : list Signal;    (* every child.kill(sig), oldest first *)
  delivered : list Signal      (* the signals that reached the process *)
}.

(** [child.kill(sig)]: delivers the signal to a process that still exists,
    sets [killed] and returns [true]; on a process that is gone it returns
    [false] and leaves [killed] alone.  SIGKILL cannot be caught. *)
Definition child_kill (sig : Signal) (c : ChildProcess) : ChildProcess :=
  if running c then
    {| running := match sig with SIGKILL => false | SIGTERM => running c end;
       killed := true;
       kill_calls := (kill_calls c ++ [sig])%list;
       delivered := (delivered c ++ [sig])%list |}
  else
    {| running := false; killed := killed c;
       kill_calls := (kill_calls c ++ [sig])%list;
       delivered := delivered c |}.

(** The 1500 ms the stop sequence sleeps.  [exits] tells whether the
    process ends during that time. *)
Definition grace_period (exits : bool) (c : ChildProcess) : ChildProcess :=
  {| running := running c && negb exits; killed := killed c;
     kill_calls := kill_calls c; delivered := delivered c |}.

Definition Window := nat.

(** The module-level variables of [main.ts], the windows Electron has
    created and destroyed, and what has been sent to them. *)
Record Main := mkMain {
  mainWindow : option Window;
  preloadPathForWindow : option string;
  rendererIndexForWindow : option string;
  gateway : option ChildProcess;
  logsDirForUi : option string;
  gatewayState : option GatewayState;
  created : nat;                          (* windows 0 .. created-1 exist *)
  destroyed : list Window;
  broadcasts : list GatewayState;         (* calls of broadcastGatewayState *)
  sent : list (Window * GatewayState)     (* "gateway-state" messages *)
}.

Definition boot : Main :=
  {| mainWindow := None; preloadPathForWindow := None;
     rendererIndexForWindow := None; gateway := None; logsDirForUi := None;
     gatewayState := None; created := 0; destroyed := []; broadcasts := [];
     sent := [] |}.

Definition isDestroyed (m : Main) (w : Window) : bool :=
  existsb (Nat.eqb w) (destroyed m).

(** [stopGatewayChild()].  The result is the state of the main process and
    of the child object the function worked on, if any. *)
Definition stopGatewayChild (exits_in_grace : bool) (m : Main)
    : Main * option ChildProcess :=
  let child := gateway m in
  let m' :=
    {| mainWindow := mainWindow m;
       preloadPathForWindow := preloadPathForWindow m;
       rendererIndexForWindow := rendererIndexForWindow m;
       gateway := None; logsDirForUi := logsDirForUi m;
       gatewayState := gatewayState m; created := created m;
       destroyed := destroyed m; broadcasts := broadcasts m;
       sent := sent m |} in
  match child with
  | None => (m', None)
  | Some c =>
      let c1 := child_kill SIGTERM c in
      let c2 := grace_period exits_in_grace c1 in
      let c3 := if negb (killed c2) then child_kill SIGKILL c2 else c2 in
      (m', Some c3)
  end.

(** [broadcastGatewayState(win, state)].  Sending to a destroyed window
    throws, and the [catch] swallows it. *)
Definition broadcastGatewayState (win : option Window) (st : GatewayState)
    (m : Main) : Main :=
  {| mainWindow := mainWindow m;
     preloadPathForWindow := preloadPathForWindow m;
     rendererIndexForWindow := rendererIndexForWindow m;
     gateway := gateway m; logsDirForUi := logsDirForUi m;
     gatewayState := Some st; created := created m;
     destroyed := destroyed m;
     broadcasts := (broadcasts m ++ [st])%list;
     sent := match win with
             | Some w =>
                 if isDestroyed m w then sent m
                 else (sent m ++ [(w, st)])%list
             | None => sent m
             end |}.

(** [await createMainWindow(...)] followed by [mainWindow = nextWin].  The
    window is taken to be there as soon as it is asked for: nothing else
    runs while it is being created.  What holds of a run in which another
    handler is scheduled during that [await] (a second [activate], say) is
    outside this model. *)
Definition adopt_new_window (m : Main) : Window * Main :=
  let nextWin := created m in
  (nextWin,
   {| mainWindow := Some nextWin;
      preloadPathForWindow := preloadPathForWindow m;
      rendererIndexForWindow := rendererIndexForWindow m;
      gateway := gateway m; logsDirForUi := logsDirForUi m;
      gatewayState := gatewayState m; created := S (created m);
      destroyed := destroyed m; broadcasts := broadcasts m;
      sent := sent m |}).

(** [ensureMainWindow()].  The two paths are written by the startup
    handler alone, with what [resolvePreloadPath] and
    [resolveRendererIndex] return; these are taken to be non-empty, so
    that the test for a falsy path is the test for one not yet set. *)
Definition ensureMainWindow (m : Main) : option Window * Main :=
  let reuse :=
    match mainWindow m with
    | Some w => if isDestroyed m w then None else Some w
    | None => None
    end in
  match reuse with
  | Some w => (Some w, m)
  | None =>
      match preloadPathForWindow m, rendererIndexForWindow m with
      | Some _, Some _ =>
          let (nextWin, m1) := adopt_new_window m in
          let m2 :=
            match gatewayState m1 with
            | Some st => broadcastGatewayState (Some nextWin) st m1
            | None => m1
            end in
          (Some nextWin, m2)
      | _, _ => (None, m)
      end
  end.

(** A window goes away; its [closed] listener clears [mainWindow] when it
    still points to that window. *)
Definition window_closed (w : Window) (m : Main) : Main :=
  if (w <? created m)%nat && negb (isDestroyed m w) then
    {| mainWindow := match mainWindow m with
                     | Some cur => if Nat.eqb cur w then None else Some cur
                     | None => None
                     end;
       preloadPathForWindow := preloadPathForWindow m;
       rendererIndexForWindow := rendererIndexForWindow m;
       gateway := gateway m; logsDirForUi := logsDirForUi m;
       gatewayState := gatewayState m; created := created m;
       destroyed := w :: destroyed m; broadcasts := broadcasts m;
       sent := sent m |}
  else m.

(** [showMainWindow()], the handler of [activate] and of the tray's Show
    entry.  Restoring, showing and focusing leave this state alone. *)
Definition showMainWindow (m : Main) : Main := snd (ensureMainWindow m).

(** What [app.whenReady().then(...)] computes or is handed before it
    opens the window. *)
Record Startup := mkStartup {
  port : Z;                    (* await pickPort(DEFAULT_PORT) *)
  logsDir : string;
  token : string;
  openclawDir : string;
  nodeBin : string;
  preloadPath : string;
  rendererIndex : string;
  child : ChildProcess         (* spawnGateway(...) *)
}.

Definition newline : string := String (ascii_of_nat 10) "".

Definition url_of (su : Startup) : string :=
  "http://127.0.0.1:" ++ show_Z (port su) ++ "/".

(** [stderrTail.read().trim() || "<empty>"] *)
Definition shown_tail (tail : string) : string :=
  if truthy (trim tail) then trim tail else "<empty>".

(** The [details] of the failed state: eight lines joined with newlines. *)
Definition failure_details (su : Startup) (tail : string) : string :=
  String.concat newline
    ["Gateway did not open the port within 30s.";
     "";
     "openclawDir: " ++ openclawDir su;
     "nodeBin: " ++ nodeBin su;
     "stderr (tail):";
     shown_tail tail;
     "";
     "See logs in: " ++ logsDir su].

(** The startup handler up to [await waitForPortOpen(...)]: it returns the
    window it captured in [win]. *)
Definition startup_begin (su : Startup) (m : Main) : option Window * Main :=
  let m1 :=
    {| mainWindow := mainWindow m;
       preloadPathForWindow := Some (preloadPath su);
       rendererIndexForWindow := Some (rendererIndex su);
       gateway := Some (child su); logsDirForUi := Some (logsDir su);
       gatewayState := gatewayState m; created := created m;
       destroyed := destroyed m; broadcasts := broadcasts m;
       sent := sent m |} in
  let (win, m2) := ensureMainWindow m1 in
  (win, broadcastGatewayState win
          (Starting (port su) (logsDir su) (token su)) m2).

(** The rest of the handler, once [waitForPortOpen] has answered [ok];
    [tail] is what [stderrTail.read()] returns at that moment. *)
Definition startup_finish (su : Startup) (win : option Window) (ok : bool)
    (tail : string) (m : Main) : Main :=
  if negb ok then
    broadcastGatewayState win
      (Failed (port su) (logsDir su) (failure_details su tail) (token su)) m
  else
    broadcastGatewayState win
      (Ready (port su) (logsDir su) (url_of su) (token su)) m.

(** What the event loop runs between the two halves of the startup
    handler, and around them. *)
Inductive UserEvent :=
| CloseWindow (w : Window)
| Activate.

Definition user_step (m : Main) (e : UserEvent) : Main :=
  match e with
  | CloseWindow w => window_closed w m
  | Activate => showMainWindow m
  end.

Definition user_steps (es : list UserEvent) (m : Main) : Main :=
  fold_left user_step es m.

(** One start of the application: user events may run before the handler,
    while it waits for the port, and after it. *)
Definition start (su : Startup) (ok : bool) (tail : string)
    (before during after : list UserEvent) : Main :=
  let m0 := user_steps before boot in
  let (win, m1) := startup_begin su m0 in
  let m2 := user_steps during m1 in
  let m3 := startup_finish su win ok tail m2 in
  user_steps after m3.

(** The messages window [w] has received. *)
Definition inbox (w : Window) (m : Main) : list GatewayState :=
  map snd (filter (fun p => Nat.eqb (fst p) w) (sent m)).

(** A list of states with immediate repetitions removed. *)
Fixpoint transitions (l : list GatewayState) (last : option GatewayState)
    (same : GatewayState -> GatewayState -> bool) : list GatewayState :=
  match l with
  | [] => []
  | x :: r =>
      match last with
      | Some y => if same x y then transitions r (Some x) same
                  else x :: transitions r (Some x) same
      | None => x :: transitions r (Some x) same
      end
  end.

(** The last state of a list, or [dflt] for the empty list. *)
Definition last_seen (l : list GatewayState) (dflt : option GatewayState)
    : option GatewayState :=
  fold_left (fun _ x => Some x) l dflt.

(** [gatewayState] is the state broadcast last. *)
Definition in_step (m : Main) : Prop :=
  gatewayState m = last_seen (broadcasts m) None.

(** A startup used in examples. *)
Definition sample_startup : Startup :=
  {| port := 18789; logsDir := "/Users/u/logs"; token := "s3cret";
     openclawDir := "/Applications/AtomicBot/openclaw";
     nodeBin := "/Applications/AtomicBot/node";
     preloadPath := "preload.js"; rendererIndex := "index.html";
     child := {| running := true; killed := false; kill_calls := [];
                 delivered := [] |} |}.

Definition same_state (a b : GatewayState) : bool :=
  match a, b with
  | Starting p l t, Starting p' l' t' =>
      Z.eqb p p' && String.eqb l l' && String.eqb t t'
  | Ready p l u t, Ready p' l' u' t' =>
      Z.eqb p p' && String.eqb l l' && String.eqb u u' && String.eqb t t'
  | Failed p l d t, Failed p' l' d' t' =>
      Z.eqb p p' && String.eqb l l' && String.eqb d d' && String.eqb t t'
  | _, _ => false
  end.

End Supervisor.

(* ================================================================== *)
(** ** More of the same code: vocabulary *)
(* ================================================================== *)

Module JsStringMore.
Import JsString.

(** No character of [s] is white space. *)
Fixpoint no_ws (s : string) : bool :=
  match s with
  | EmptyString => true
  | String c r => negb (is_ws c) && no_ws r
  end.

End JsStringMore.

Module WelcomeMore.
Import JsString Json Welcome.

(** The two calls that change the configuration. *)
Definition is_write (r : Request) : bool :=
  match r with
  | ConfigSet _ | ConfigPatch _ _ _ => true
  | _ => false
  end.

(** A log in which every write comes after a [config.get] and at most
    [writes_left] writes occur. *)
Fixpoint guarded (seen_get : bool) (writes_left : nat) (log : list Request)
    : bool :=
  match log with
  | [] => true
  | ConfigGet :: rest => guarded true writes_left rest
  | (ConfigSet _ | ConfigPatch _ _ _) :: rest =>
      seen_get &&
      match writes_left with
      | S n => guarded seen_get n rest
      | O => false
      end
  | _ :: rest => guarded seen_get writes_left rest
  end.

Definition write_discipline (log : list Request) : bool := guarded false 1 log.

(** The call that hands an API key to the desktop app. *)
Definition is_set_api_key (r : Request) : bool :=
  match r with SetApiKey _ _ => true | _ => false end.


(** [type GogExecResult] *)
Record GogExecResult := mkGogExecResult {
  gog_ok : bool;
  gog_code : option Z;
  gog_stdout : string;
  gog_stderr : string
}.

(** The three pieces of page state [runGog] drives. *)
Record GogPanel := mkGogPanel {
  gogError : option string;
  gogBusy : bool;
  gogOutput : option string
}.

Definition newline : string := String (ascii_of_nat 10) "".

(** The text [runGog] shows for a result: the non-empty ones of four
    blocks, separated by blank lines, or the fallback when nothing is
    left. *)
Definition gog_report (res : GogExecResult) : string :=
  let out :=
    String.concat (newline ++ newline)
      (filter truthy
         [ "ok: " ++ (if gog_ok res then "true" else "false");
           "code: " ++ match gog_code res with
                       | Some c => show_Z c
                       | None => "null"
                       end;
           if truthy (gog_stderr res)
           then "stderr:" ++ newline ++ trim (gog_stderr res) else "";
           if truthy (gog_stdout res)
           then "stdout:" ++ newline ++ trim (gog_stdout res) else "" ]) in
  if truthy out then out else "(no output)".

(** [runGog(fn)]: [answer] is how [await fn()] ends.  The result is the
    state of the panel afterwards and how [runGog] itself ends. *)
Definition runGog (answer : Outcome GogExecResult)
    : GogPanel * Outcome GogExecResult :=
  match answer with
  | Returned res =>
      ({| gogError :=
            if negb (gog_ok res)
            then Some (if truthy (trim (gog_stderr res))
                       then trim (gog_stderr res)
                       else "gog command failed")
            else None;
          gogBusy := false;
          gogOutput := Some (gog_report res) |},
       Returned res)
  | Threw err =>
      ({| gogError := Some err; gogBusy := false; gogOutput := None |},
       Threw err)
  end.

End WelcomeMore.

Module ChatMore.
Import JsString Json Chat.

(** The events the page's handler acts on: [chat] events of its own
    session. *)
Definition relevant (evt : GatewayEvent) : bool :=
  (event evt =? "chat") && (sessionKey (payload evt) =? page_session).

End ChatMore.

Module SupervisorMore.
Import JsString Supervisor.

(** The bookkeeping of windows is sound: [mainWindow], when set, is a
    window that exists and has not been destroyed; every destroyed window
    and every addressee of a message is a window that was created. *)
Definition tidy (m : Main) : Prop :=
  (forall w, mainWindow m = Some w ->
     (w < created m)%nat /\ isDestroyed m w = false) /\
  Forall (fun w => (w < created m)%nat) (destroyed m) /\
  Forall (fun p => (fst p < created m)%nat) (sent m).

End SupervisorMore.

(* ================================================================== *)
(** ** The update splash ([update-splash.ts]) *)
(* ================================================================== *)

Module Splash.
Import JsString.

Inductive Signal := SIGTERM | SIGKILL.

Definition is_digit (c : ascii) : bool :=
  let n := nat_of_ascii c in ((48 <=? n) && (n <=? 57))%nat.

(** The longest prefix of decimal digits. *)
Fixpoint digit_prefix (s : string) : string :=
  match s with
  | String c r => if is_digit c then String c (digit_prefix r) else ""
  | EmptyString => ""
  end.

Definition minus : ascii := ascii_of_nat 45.
Definition plus : ascii := ascii_of_nat 43.

(** [parseInt(s, 10)]: leading white space is skipped, then an optional
    sign and the longest run of digits are read; [None] is [NaN]. *)
Definition parseInt10 (s : string) : option Z :=
  let s := trimStart s in
  let signed :=
    match s with
    | String c r =>
        if Ascii.eqb c minus then (true, r)
        else if Ascii.eqb c plus then (false, r)
        else (false, s)
    | EmptyString => (false, s)
    end in
  match NilZero.uint_of_string (digit_prefix (snd signed)) with
  | Some u => Some (if fst signed then (- Z.of_uint u)%Z else Z.of_uint u)
  | None => None
  end.

(** What [killUpdateSplash] finds: the platform, the content of the pid
    file (if it is there), and which of its system calls fail. *)
Record KillEnv := mkKillEnv {
  platform : string;
  sentinel : option string;
  read_fails : bool;          (* fs.readFileSync throws *)
  kill_fails : bool;          (* process.kill throws *)
  unlink_fails : bool         (* fs.unlinkSync throws *)
}.

(** What it has done when it returns. *)
Record KillEffects := mkKillEffects {
  kill_calls : list (Z * Signal);     (* process.kill(pid, sig) *)
  sentinel_after : option string
}.

(** [killUpdateSplash()].  Both [try] blocks catch everything, so the
    function itself never throws. *)
Definition killUpdateSplash (env : KillEnv) : KillEffects :=
  let untouched :=
    {| kill_calls := []; sentinel_after := sentinel env |} in
  if negb (platform env =? "darwin") then untouched
  else
    match sentinel env with
    | None => untouched
    | Some content =>
        if read_fails env then untouched
        else
          let raw := trim content in
          let pid := parseInt10 raw in
          let calls :=
            match pid with
            | Some p => if (0 <? p)%Z then [(p, SIGTERM)] else []
            | None => []
            end in
          {| kill_calls := calls;
             sentinel_after :=
               if unlink_fails env then sentinel env else None |}
    end.

(** An entry of [NSWorkspace.sharedWorkspace.runningApplications]. *)
Record RunningApp := mkRunningApp {
  processIdentifier : Z;
  bundleIdentifier : option string
}.

Inductive FileAction :=
| WriteFile (path content : string)
| RemoveFile (path : string).

(** How the splash script ends, and after how many polls. *)
Inductive SplashExit :=
| NewInstanceSeen (polls : nat)
| TimedOut (polls : nat).

Definition MAX_SECONDS : nat := 120.

Section Script.

(** The arguments of the script, the pid of the [osascript] process that
    runs it, and what [runningApplications] holds after the n-th wait of
    the poll loop (n = 1, 2, ...); the two reads of one poll see the same
    list. *)
Variable argv : list string.
Variable own_pid : Z.
Variable snapshots : nat -> list RunningApp.

(** [parseInt(argv[0], 10) || 0] *)
Definition oldPid : Z :=
  match nth_error argv 0 with
  | Some a => match parseInt10 a with Some p => p | None => 0%Z end
  | None => 0%Z
  end.

(** [argv[1] || ''] *)
Definition sentinelPath : string :=
  match nth_error argv 1 with Some p => p | None => "" end.

(** [argv[2] || 'ai.atomicbot.desktop'] *)
Definition bundleId : string :=
  match nth_error argv 2 with
  | Some b => if truthy b then b else "ai.atomicbot.desktop"
  | None => "ai.atomicbot.desktop"
  end.

Definition stillRunning (apps : list RunningApp) : bool :=
  existsb (fun a => Z.eqb (processIdentifier a) oldPid) apps.

Definition new_instance_in (apps : list RunningApp) : bool :=
  existsb (fun a => match bundleIdentifier a with
                    | Some bid => String.eqb bid bundleId
                    | None => false
                    end) apps.

(** The [while (elapsed < MAX_SECONDS)] loop.  [elapsed] counts whole
    seconds, as the script's [elapsed += 1.0] does. *)
Fixpoint poll_loop (fuel elapsed : nat) (oldPidDead : bool)
    : option SplashExit :=
  match fuel with
  | O => None
  | S fuel' =>
      if (elapsed <? MAX_SECONDS)%nat then
        let elapsed := (elapsed + 1)%nat in
        let apps := snapshots elapsed in
        let oldPidDead :=
          if negb oldPidDead then negb (stillRunning apps) else oldPidDead in
        if oldPidDead && new_instance_in apps
        then Some (NewInstanceSeen elapsed)
        else poll_loop fuel' elapsed oldPidDead
      else Some (TimedOut elapsed)
  end.

(** [cleanup(sentinelPath)] *)
Definition cleanup : list FileAction :=
  if truthy sentinelPath then [RemoveFile sentinelPath] else [].

(** [run(argv)]: how the script ends and what it did to the pid file. *)
Definition run (fuel : nat) : option (SplashExit * list FileAction) :=
  let written :=
    if truthy sentinelPath
    then [WriteFile sentinelPath (show_Z own_pid)] else [] in
  match poll_loop fuel 0 (Z.eqb oldPid 0) with
  | Some exit => Some (exit, (written ++ cleanup)%list)
  | None => None
  end.

(** The old process has been seen gone at or before poll [k]. *)
Fixpoint old_gone (k : nat) : bool :=
  match k with
  | O => Z.eqb oldPid 0
  | S j => old_gone j || negb (stillRunning (snapshots k))
  end.

(** Poll [k] finds the old process gone and an instance with the bundle
    id running. *)
Definition ready (k : nat) : bool :=
  old_gone k && new_instance_in (snapshots k).

End Script.

(** The arguments [showUpdateSplash] hands to the script. *)
Definition splash_argv (process_pid : Z) (sentinelPath : string)
    : list string :=
  [show_Z process_pid; sentinelPath; "ai.atomicbot.desktop"].

(** [showUpdateSplash()]: the script's arguments if it is started; [None]
    off macOS and when preparing or spawning it throws. *)
Definition showUpdateSplash (platform : string) (setup_fails : bool)
    (process_pid : Z) (sentinelPath : string) : option (list string) :=
  if negb (platform =? "darwin") then None
  else if setup_fails then None
  else Some (splash_argv process_pid sentinelPath).

(** Every character of [s] is a decimal digit. *)
Fixpoint all_digits (s : string) : Prop :=
  match s with
  | EmptyString => True
  | String c r => is_digit c = true /\ all_digits r
  end.

(** What the poll loop promises about the way it ends, having already
    polled [elapsed] times. *)
Definition ends_well (argv : list string)
    (snapshots : nat -> list RunningApp) (elapsed : nat) (e : SplashExit)
    : Prop :=
  match e with
  | NewInstanceSeen k =>
      (elapsed < k <= MAX_SECONDS)%nat /\
      ready argv snapshots k = true /\
      (forall j, (1 <= j < k)%nat -> ready argv snapshots j = false)
  | TimedOut k =>
      k = MAX_SECONDS /\
      (forall j, (1 <= j <= MAX_SECONDS)%nat ->
                 ready argv snapshots j = false)
  end.

(** Two polls: the old instance (pid 4242) is still there at the first,
    the new one (pid 5150) has replaced it at the second. *)
Definition two_polls (n : nat) : list RunningApp :=
  match n with
  | 1%nat => [mkRunningApp 4242 (Some "ai.atomicbot.desktop")]
  | _ => [mkRunningApp 5150 (Some "ai.atomicbot.desktop")]
  end.

End Splash.

(* ================================================================== *)
(** ** The onboarding pages ([ApiKeyPage], [ModelSelectPage]) *)
(* ================================================================== *)

Module Pages.
Import JsString.

(** [ApiKeyPage.handleSubmit]: the argument [props.onSubmit] is called
    with, or [None] when it is not called. *)
Definition handleSubmit (apiKey : string) : option string :=
  let trimmed := trim apiKey in
  if truthy trimmed then Some trimmed else None.

Inductive ModelTier := ultra | pro | fast.

(** [MODEL_TIERS[provider]].  A provider name that only hits a property
    inherited from [Object.prototype] yields an object without tier ids,
    for which [getModelTier] returns [null] as it does for no entry. *)
Definition MODEL_TIERS (provider : string) : option (ModelTier -> string) :=
  if provider =? "anthropic" then
    Some (fun t => match t with
                   | ultra => "claude-opus-4-5"
                   | pro => "claude-sonnet-4-5"
                   | fast => "claude-haiku-4-5"
                   end)
  else if provider =? "google" then
    Some (fun t => match t with
                   | ultra => "gemini-2.5-pro"
                   | pro => "gemini-2.5-flash"
                   | fast => "gemini-2.0-flash-lite"
                   end)
  else if provider =? "openai" then
    Some (fun t => match t with
                   | ultra => "gpt-5.2-pro"
                   | pro => "gpt-5.2"
                   | fast => "gpt-5-mini"
                   end)
  else if provider =? "openrouter" then
    Some (fun t => match t with
                   | ultra => "auto"
                   | pro => ""
                   | fast => ""
                   end)
  else None.

Definition TIER_ORDER : list ModelTier := [ultra; pro; fast].

Definition TIER_PRIORITY (t : ModelTier) : Z :=
  match t with ultra => 0 | pro => 1 | fast => 2 end.

Definition getModelTier (provider modelId : string) : option ModelTier :=
  match MODEL_TIERS provider with
  | None => None
  | Some providerTiers =>
      find (fun tier =>
              let exactId := providerTiers tier in
              truthy exactId && (modelId =? exactId))
           TIER_ORDER
  end.

Record ModelEntry := mkModelEntry {
  id : string;
  name : string;
  provider : string
}.

Definition tier_of (m : ModelEntry) : option ModelTier :=
  getModelTier (provider m) (id m).

(** [m.name || m.id] *)
Definition label (m : ModelEntry) : string :=
  if truthy (name m) then name m else id m.

Section Sorting.

(** [String.prototype.localeCompare]; its order depends on the locale. *)
Variable localeCompare : string -> string -> Z.

(** The comparator handed to [toSorted]. *)
Definition compareModels (a b : ModelEntry) : Z :=
  match tier_of a, tier_of b with
  | Some tierA, Some tierB => (TIER_PRIORITY tierA - TIER_PRIORITY tierB)%Z
  | Some _, None => (-1)%Z
  | None, Some _ => 1%Z
  | None, None => localeCompare (label a) (label b)
  end.

(** [x] is put in front of the first entry it does not sort after. *)
Fixpoint insert (x : ModelEntry) (l : list ModelEntry) : list ModelEntry :=
  match l with
  | [] => [x]
  | y :: r =>
      if (0 <? compareModels x y)%Z then y :: insert x r else x :: l
  end.

(** [Array.prototype.toSorted] is a stable sort; this is the order a
    stable sort produces when the comparator is consistent. *)
Fixpoint toSorted (l : list ModelEntry) : list ModelEntry :=
  match l with
  | [] => []
  | x :: r => insert x (toSorted r)
  end.

(** [filteredModels] *)
Definition filteredModels (models : list ModelEntry)
    (filterProvider : option string) : list ModelEntry :=
  let models :=
    match filterProvider with
    | Some p =>
        if truthy p then filter (fun m => provider m =? p) models
        else models
    | None => models
    end in
  toSorted models.

End Sorting.

(** What [sort] asks of a comparator: swapping the arguments swaps the
    sign, and "not after" is transitive. *)
Definition consistent_comparator {A} (cmp : A -> A -> Z) : Prop :=
  (forall a b, (cmp a b < 0 <-> 0 < cmp b a)%Z) /\
  (forall a b c, (cmp a b <= 0 -> cmp b c <= 0 -> cmp a c <= 0)%Z).

(** [a] may be listed before [b]: a model with a badge is never behind
    one without, and badges appear in the order ultra, pro, fast. *)
Definition badge_order (a b : ModelEntry) : Prop :=
  match tier_of b with
  | None => True
  | Some tb =>
      match tier_of a with
      | Some ta => (TIER_PRIORITY ta <= TIER_PRIORITY tb)%Z
      | None => False
      end
  end.

(** A comparison by length, as a stand-in for a locale's order. *)
Definition by_length (x y : string) : Z :=
  (Z.of_nat (String.length x) - Z.of_nat (String.length y))%Z.

End Pages.

(* ================================================================== *)
(** ** The settings tab ([OtherTab]) and the consent screen *)
(* ================================================================== *)

Module OtherTab.
Import JsString Welcome.

Definition TERMINAL_SIDEBAR_KEY : string := "terminal-sidebar-visible".

(** [localStorage]: what it holds, and whether touching it throws. *)
Record LocalStorage := mkLocalStorage {
  items : string -> option string;
  denied : bool
}.

Definition setItem (ls : LocalStorage) (k v : string) : LocalStorage :=
  {| items := fun k' => if k' =? k then Some v else items ls k';
     denied := denied ls |}.

(** The initial [visible] of [useTerminalSidebarVisible]. *)
Definition initial_visible (ls : LocalStorage) : bool :=
  if denied ls then false
  else match items ls TERMINAL_SIDEBAR_KEY with
       | Some v => v =? "1"
       | None => false
       end.

(** [toggle(v)]: the new [visible], the storage afterwards and the window
    events dispatched. *)
Definition toggle (v : bool) (ls : LocalStorage)
    : bool * LocalStorage * list string :=
  (v,
   if denied ls then ls
   else setItem ls TERMINAL_SIDEBAR_KEY (if v then "1" else "0"),
   ["terminal-sidebar-changed"]).

(** What a handler of the tab does that can be seen from outside. *)
Inductive Call :=
| OnError (msg : option string)
| PickStateDirFolder
| SetStateDirOverride (path : string)
| Confirm
| Retry
| ResetAndClose.

Record PickResult := mkPickResult {
  pick_ok : bool;
  pick_path : option string
}.

Record SetResult := mkSetResult {
  set_ok : bool;
  set_error : option string;
  needsRestart : bool
}.

(** [window.openclawDesktop] as the three handlers below use it: which of
    its optional methods exist and how their promises settle; for
    [resetAndClose], whose result is not used, the rejection if any. *)
Record DesktopApi := mkDesktopApi {
  pickStateDirFolder : option (Outcome PickResult);
  setStateDirOverride : option (string -> Outcome SetResult);
  resetAndClose_rejects : option string
}.

Record View := mkView {
  launchAtStartup : bool;
  resetBusy : bool;
  stateDir : string
}.

Definition unavailable : Call := OnError (Some "Desktop API not available").

Section Handlers.

Variable api : option DesktopApi.
(** The user's answer to [window.confirm]. *)
Variable ok : bool.

(** The tail shared by the two state directory handlers: ask, and restart
    on a yes. *)
Definition offer_restart : list Call :=
  Confirm :: (if ok then [Retry] else []).

Definition changeStateDir (v : View) : View * list Call :=
  match api with
  | Some a =>
      match pickStateDirFolder a, setStateDirOverride a with
      | Some pick, Some set =>
          match pick with
          | Threw _ => (v, [OnError None; PickStateDirFolder])
          | Returned pick =>
              match pick_path pick with
              | Some path =>
                  if negb (pick_ok pick) || negb (truthy path)
                  then (v, [OnError None; PickStateDirFolder])
                  else
                    let asked :=
                      [OnError None; PickStateDirFolder;
                       SetStateDirOverride path] in
                    match set path with
                    | Threw _ => (v, asked)
                    | Returned res =>
                        if negb (set_ok res) then
                          (v, (asked ++
                               [OnError
                                  (Some match set_error res with
                                        | Some e => e
                                        | None =>
                                            "Failed to set state directory"
                                        end)])%list)
                        else
                          (mkView (launchAtStartup v) (resetBusy v) path,
                           (asked ++
                            (if needsRestart res then offer_restart
                             else []))%list)
                    end
              | None => (v, [OnError None; PickStateDirFolder])
              end
          end
      | _, _ => (v, [unavailable])
      end
  | None => (v, [unavailable])
  end.

Definition resetStateDir (v : View) : View * list Call :=
  match api with
  | Some a =>
      match setStateDirOverride a with
      | Some set =>
          let asked := [OnError None; SetStateDirOverride ""] in
          match set "" with
          | Threw _ => (v, asked)
          | Returned res =>
              if negb (set_ok res) then
                (v, (asked ++
                     [OnError
                        (Some match set_error res with
                              | Some e => e
                              | None => "Failed to reset state directory"
                              end)])%list)
              else (v, (asked ++ offer_restart)%list)
          end
      | None => (v, [unavailable])
      end
  | None => (v, [unavailable])
  end.

Definition resetAndClose (v : View) : View * list Call :=
  match api with
  | Some a =>
      if negb ok then (v, [Confirm])
      else
        match resetAndClose_rejects a with
        | None =>
            (mkView (launchAtStartup v) true (stateDir v),
             [Confirm; OnError None; ResetAndClose])
        | Some err =>
            (mkView (launchAtStartup v) false (stateDir v),
             [Confirm; OnError None; ResetAndClose; OnError (Some err)])
        end
  | None => (v, [unavailable])
  end.

End Handlers.

(** The handlers that can restart the app or wipe its data. *)
Inductive Handler := ChangeStateDir | ResetStateDir | ResetAndCloseData.

Definition handle (h : Handler) (api : option DesktopApi) (ok : bool)
    (v : View) : View * list Call :=
  match h with
  | ChangeStateDir => changeStateDir api ok v
  | ResetStateDir => resetStateDir api ok v
  | ResetAndCloseData => resetAndClose api ok v
  end.

Definition is_drastic (c : Call) : bool :=
  match c with Retry | ResetAndClose => true | _ => false end.

Definition is_override (c : Call) : bool :=
  match c with SetStateDirOverride _ => true | _ => false end.

(** A desktop API whose calls all succeed; the picked folder is
    [/data/openclaw] and changing to it needs a restart. *)
Definition obliging : DesktopApi :=
  {| pickStateDirFolder :=
       Some (Returned (mkPickResult true (Some "/data/openclaw")));
     setStateDirOverride :=
       Some (fun _ => Returned (mkSetResult true None true));
     resetAndClose_rejects := None |}.

End OtherTab.

Module ConsentScreen.

(** [window.openclawDesktop] as the screen uses it: for each method,
    whether it exists and, if so, the error its promise rejects with (if
    it does). *)
Record ConsentDesktopApi := mkConsentDesktopApi {
  acceptConsent : option (option string);
  startGateway : option (option string)
}.

Record Screen := mkScreen {
  checked : bool;
  busy : bool;
  error : option string
}.

Inductive Call := AcceptConsent | StartGateway | OnAccepted.

Definition api_missing : string :=
  "Desktop API is not available. Please restart the app.".

(** [accept()].  [onAccepted] is the parent's callback; if it throws, the
    [catch] shows its error like any other. *)
Definition accept (api : option ConsentDesktopApi)
    (onAccepted : option string) (s : Screen) : Screen * list Call :=
  if negb (checked s) || busy s then (s, [])
  else
    let no_api := (mkScreen (checked s) (busy s) (Some api_missing), []) in
    match api with
    | None => no_api
    | Some a =>
        match acceptConsent a with
        | None => no_api
        | Some consent =>
            let failed err calls :=
              (mkScreen (checked s) false (Some err), calls) in
            let called_back calls :=
              match onAccepted with
              | None =>
                  (mkScreen (checked s) false None,
                   (calls ++ [OnAccepted])%list)
              | Some err => failed err (calls ++ [OnAccepted])%list
              end in
            match consent with
            | Some err => failed err [AcceptConsent]
            | None =>
                match startGateway a with
                | None => called_back [AcceptConsent]
                | Some None => called_back [AcceptConsent; StartGateway]
                | Some (Some err) => failed err [AcceptConsent; StartGateway]
                end
            end
        end
    end.

End ConsentScreen.

(* ================================================================== *)
(** * Properties *)
(* ================================================================== *)

Module JsStringFacts.
Import JsString.

Lemma append_assoc (a b c : string) : (a ++ b) ++ c = a ++ (b ++ c).
Proof. induction a as [|x a IH]; simpl; [reflexivity | now rewrite IH]. Qed.

Lemma append_nil_r (a : string) : a ++ "" = a.
Proof. induction a as [|x a IH]; simpl; [reflexivity | now rewrite IH]. Qed.

Lemma truthy_false (s : string) : truthy s = false <-> s = "".
Proof. destruct s; simpl; split; congruence. Qed.

Lemma truthy_true (s : string) : truthy s = true <-> s <> "".
Proof. destruct s; simpl; split; congruence. Qed.

Lemma occurs_in_middle (a x b : string) : occurs_in x (a ++ x ++ b).
Proof. exists a, b. reflexivity. Qed.



Lemma prefix_append (a b : string) : String.prefix a (a ++ b) = true.
Proof.
  induction a as [|x a IH]; simpl; [now destruct b|].
  destruct (ascii_dec x x) as [_|N]; [exact IH | now elim N].
Qed.

Lemma includes_unfold (needle hay : string) :
  includes needle hay
  = String.prefix needle hay
    || match hay with
       | String _ rest => includes needle rest
       | EmptyString => false
       end.
Proof. destruct hay; reflexivity. Qed.

(** [includes] finds every occurrence, so a [false] rules them all out. *)
Lemma occurs_in_includes (needle hay : string) :
  occurs_in needle hay -> includes needle hay = true.
Proof.
  intros (before & after & ->).
  induction before as [|c before IH]; cbn [append].
  - rewrite includes_unfold, prefix_append. reflexivity.
  - rewrite includes_unfold. cbv iota. rewrite IH. apply orb_true_r.
Qed.

Example trim_pads : trim "  tg:42 " = "tg:42".
Proof. reflexivity. Qed.

Example trim_blank : trim (String (ascii_of_nat 10) " ") = "".
Proof. reflexivity. Qed.

Example show_Z_timeout : show_Z 120000 = "120000".
Proof. reflexivity. Qed.

End JsStringFacts.

Module ExecFacts.
Import JsString JsStringFacts Exec.

Section OneCall.
Variable bin : string.
Variable timeoutMs : Z.

Lemma consistent_spawned : consistent spawned.
Proof. cbv; repeat split. Qed.

Lemma consistent_step (s : Run) (e : Event) :
  consistent s -> consistent (step bin timeoutMs s e).
Proof.
  unfold consistent.
  destruct s as [o er st li ta sg rc pr]; simpl.
  destruct st; simpl.
  - intros (-> & -> & r & -> & ->).
    destruct e; simpl; repeat split; eauto.
  - intros (-> & -> & -> & -> & ->).
    destruct e; simpl; repeat split; eauto.
Qed.

Lemma consistent_fold (evs : list Event) (s : Run) :
  consistent s -> consistent (fold_left (step bin timeoutMs) evs s).
Proof.
  revert s; induction evs as [|e evs IH]; simpl; intros s H; [exact H|].
  apply IH, consistent_step, H.
Qed.

Lemma consistent_run (evs : list Event) : consistent (run bin timeoutMs evs).
Proof. apply consistent_fold, consistent_spawned. Qed.

(** Once settled, a call is deaf to every event. *)
Lemma step_after_settled (s : Run) (e : Event) :
  consistent s -> settled s = true -> step bin timeoutMs s e = s.
Proof.
  unfold consistent.
  destruct s as [o er st li ta sg rc pr]; simpl.
  intros H ->. destruct H as (-> & -> & _).
  destruct e; reflexivity.
Qed.

Lemma fold_after_settled (evs : list Event) (s : Run) :
  consistent s -> settled s = true -> fold_left (step bin timeoutMs) evs s = s.
Proof.
  induction evs as [|e evs IH]; simpl; intros Hc Hs; [reflexivity|].
  rewrite (step_after_settled s e Hc Hs). apply IH; assumption.
Qed.

(** Pipe data before the first settling event only fills the buffers. *)
Lemma run_data_only (pre : list Event) :
  Forall (fun e => is_data e = true) pre ->
  run bin timeoutMs pre =
    {| out_buf := captured_stdout pre; err_buf := captured_stderr pre;
       settled := false; listening := true; timer_armed := true;
       signals := []; resolve_calls := []; promise := Pending |}.
Proof.
  unfold run.
  assert (G : forall o er,
    Forall (fun e => is_data e = true) pre ->
    fold_left (step bin timeoutMs) pre
      {| out_buf := o; err_buf := er; settled := false; listening := true;
         timer_armed := true; signals := []; resolve_calls := [];
         promise := Pending |} =
    {| out_buf := o ++ captured_stdout pre;
       err_buf := er ++ captured_stderr pre;
       settled := false; listening := true; timer_armed := true;
       signals := []; resolve_calls := []; promise := Pending |}).
  { induction pre as [|e pre IH]; intros o er HF.
    - simpl. now rewrite !append_nil_r.
    - inversion HF as [|? ? He HF']; subst.
      destruct e; simpl in He; try discriminate; simpl.
      + rewrite IH by assumption. now rewrite append_assoc.
      + rewrite IH by assumption. now rewrite append_assoc. }
  intros HF. apply (G "" "" HF).
Qed.

Lemma first_settling_some (evs pre : list Event) (e : Event) :
  first_settling evs = Some (pre, e) ->
  Forall (fun x => is_data x = true) pre /\ is_data e = false /\
  exists post, evs = (pre ++ e :: post)%list.
Proof.
  revert pre; induction evs as [|x evs IH]; simpl; intros pre H.
  - discriminate.
  - destruct (is_data x) eqn:Hx.
    + destruct (first_settling evs) as [[pre' e']|]; [|discriminate].
      inversion H; subst; clear H.
      destruct (IH pre' eq_refl) as (HF & He & post & ->).
      repeat split; [constructor; assumption | assumption |].
      exists post; reflexivity.
    + inversion H; subst; clear H.
      repeat split; [constructor | assumption |].
      exists evs; reflexivity.
Qed.

Lemma first_settling_none (evs : list Event) :
  first_settling evs = None -> Forall (fun x => is_data x = true) evs.
Proof.
  induction evs as [|x evs IH]; simpl; intros H; [constructor|].
  destruct (is_data x) eqn:Hx; [|discriminate].
  destruct (first_settling evs) as [[pre e]|]; [discriminate|].
  constructor; [assumption | apply IH; reflexivity].
Qed.

Lemma first_settling_app (evs later pre : list Event) (e : Event) :
  first_settling evs = Some (pre, e) ->
  first_settling (evs ++ later)%list = Some (pre, e).
Proof.
  revert pre; induction evs as [|x evs IH]; simpl; intros pre H.
  - discriminate.
  - destruct (is_data x); [|assumption].
    destruct (first_settling evs) as [[pre' e']|]; [|discriminate].
    inversion H; subst. now rewrite (IH pre' eq_refl).
Qed.

(** The state right after the first settling event, whatever follows. *)
Lemma run_settled (pre post : list Event) (e : Event) :
  Forall (fun x => is_data x = true) pre -> is_data e = false ->
  run bin timeoutMs (pre ++ e :: post) =
    {| out_buf := captured_stdout pre; err_buf := captured_stderr pre;
       settled := true; listening := false; timer_armed := false;
       signals := match e with TimerFired => [SIGKILL] | _ => [] end;
       resolve_calls := [verdict bin timeoutMs pre e];
       promise := Fulfilled (verdict bin timeoutMs pre e) |}.
Proof.
  intros HF He. unfold run. rewrite fold_left_app. simpl.
  fold (run bin timeoutMs pre). rewrite (run_data_only pre HF).
  set (s1 := step bin timeoutMs _ e).
  assert (E : s1 =
    {| out_buf := captured_stdout pre; err_buf := captured_stderr pre;
       settled := true; listening := false; timer_armed := false;
       signals := match e with TimerFired => [SIGKILL] | _ => [] end;
       resolve_calls := [verdict bin timeoutMs pre e];
       promise := Fulfilled (verdict bin timeoutMs pre e) |}).
  { subst s1. destruct e; simpl in He; try discriminate; reflexivity. }
  rewrite E. apply fold_after_settled; [|reflexivity].
  unfold consistent; simpl. repeat split. eexists; split; reflexivity.
Qed.

End OneCall.

(** C10. Once [spawn] has handed back a child, the promise returned by
    [runCommandWithTimeout] settles exactly once, with the result built by
    whichever of the timer, the child's [close] and the child's [error]
    comes first.  For every sequence of events: when it contains a
    settling event, the promise is fulfilled with the verdict of the first
    one, [resolve] has been called exactly once, and appending any further
    events leaves both unchanged (the [settled] flag turns them away); when
    it contains none yet, the promise is pending and the timer still
    armed; once the deadline passes the promise is fulfilled.  But the
    promise does reject: when [spawn] itself throws, the executor is left
    by the exception, [resolve] is never called, no timer is set, and the
    promise is rejected with what [spawn] threw. *)
Theorem settles_once_but_rejects_when_spawn_throws
    (bin : string) (timeoutMs : Z) :
  (forall evs : list Event,
     match first_settling evs with
     | Some (pre, e) =>
         forall later : list Event,
           let s := run bin timeoutMs (evs ++ later) in
           promise s = Fulfilled (verdict bin timeoutMs pre e) /\
           resolve_calls s = [verdict bin timeoutMs pre e] /\
           settled s = true
     | None =>
         let s := run bin timeoutMs evs in
         promise s = Pending /\ resolve_calls s = [] /\ timer_armed s = true
     end /\
     (exists r,
        promise (runCommandWithTimeout bin timeoutMs (Child evs))
        = Fulfilled r /\
        resolve_calls (runCommandWithTimeout bin timeoutMs (Child evs))
        = [r])) /\
  (forall err : string,
     let s := runCommandWithTimeout bin timeoutMs (Throws err) in
     promise s = Rejected err /\ resolve_calls s = [] /\
     signals s = [] /\ timer_armed s = false /\ settled s = false).
Proof.
  split; [|intros err; cbv zeta; repeat split].
  intros evs. split.
  - destruct (first_settling evs) as [[pre e]|] eqn:F.
    + intros later.
      pose proof (first_settling_app evs later pre e F) as F'.
      destruct (first_settling_some _ _ _ F') as (HF & He & post & ->).
      cbv zeta. rewrite (run_settled bin timeoutMs pre post e HF He).
      simpl. repeat split.
    + cbv zeta.
      rewrite (run_data_only bin timeoutMs evs (first_settling_none evs F)).
      simpl. repeat split.
  - unfold runCommandWithTimeout.
    pose proof (consistent_run bin timeoutMs evs) as C.
    unfold consistent in C.
    destruct (run bin timeoutMs evs) as [o er st li ta sg rc pr]; simpl in *.
    destruct st.
    + destruct C as (-> & -> & r & -> & ->). exists r. split; reflexivity.
    + destruct C as (-> & -> & -> & -> & ->). simpl.
      eexists; split; reflexivity.
Qed.



Lemma verdict_ok_iff (bin : string) (timeoutMs : Z) (pre : list Event)
    (e : Event) :
  ok (verdict bin timeoutMs pre e) = true <-> e = Close (Some 0%Z).
Proof.
  destruct e as [c|c|[[|p|p]|]|err|]; simpl; split; intros H;
    try discriminate; try reflexivity; inversion H.
Qed.

Lemma verdict_code_iff (bin : string) (timeoutMs : Z) (pre : list Event)
    (e : Event) :
  ok (verdict bin timeoutMs pre e) = true <->
  code (verdict bin timeoutMs pre e) = Some 0%Z.
Proof.
  destruct e as [c|c|[[|p|p]|]|err|]; simpl; split; intros H;
    try discriminate; try reflexivity; inversion H.
Qed.

(** The result of a call in terms of the events before its deadline. *)
Lemma call_result (bin : string) (timeoutMs : Z) (evs : list Event) :
  promise (runCommandWithTimeout bin timeoutMs (Child evs)) =
    Fulfilled
      match first_settling evs with
      | Some (pre, e) => verdict bin timeoutMs pre e
      | None => verdict bin timeoutMs evs TimerFired
      end.
Proof.
  unfold runCommandWithTimeout.
  destruct (first_settling evs) as [[pre e]|] eqn:F.
  - destruct (first_settling_some _ _ _ F) as (HF & He & post & ->).
    rewrite (run_settled bin timeoutMs pre post e HF He). reflexivity.
  - rewrite (run_data_only bin timeoutMs evs (first_settling_none evs F)).
    reflexivity.
Qed.

Example failed_run :
  promise (runCommandWithTimeout "remindctl" 20000
             (Child [StderrData "no "; StdoutData "{}"; StderrData "access";
                     Close (Some 1%Z); TimerFired]))
  = Fulfilled {| ok := false; code := Some 1%Z; stdout := "{}";
                 stderr := "no access"; resolvedPath := Some "remindctl" |}.
Proof. reflexivity. Qed.

Example spawn_error_run :
  promise (runCommandWithTimeout "remindctl" 20000
             (Child [Error "Error: spawn remindctl EACCES";
                     Close (Some (-13)%Z)]))
  = Fulfilled {| ok := false; code := None; stdout := "";
                 stderr := "Error: spawn remindctl EACCES";
                 resolvedPath := Some "remindctl" |}.
Proof. reflexivity. Qed.

Example timed_out_run :
  promise (runCommandWithTimeout "remindctl" 20000
             (Child [StderrData "waiting"]))
  = Fulfilled {| ok := false; code := None; stdout := "";
                 stderr := "waiting" ++ newline ++ "timeout after 20000ms";
                 resolvedPath := Some "remindctl" |}.
Proof. reflexivity. Qed.

(** [cwd] is a file: [spawn] throws, the call's promise is rejected and so
    is the handler's. *)
Example spawn_throw_run :
  promise (runCommandWithTimeout "/opt/atomicbot/remindctl" 120000
             (Throws "Error: spawn ENOTDIR"))
  = Rejected "Error: spawn ENOTDIR" /\
  remindctl_authorize "/opt/atomicbot/remindctl" true
    (Throws "Error: spawn ENOTDIR")
  = Rejected "Error: spawn ENOTDIR" /\
  remindctl_today_json "/opt/atomicbot/remindctl" true
    (Throws "Error: spawn ENOTDIR")
  = Rejected "Error: spawn ENOTDIR".
Proof. repeat split. Qed.

(** C5. What the exec handlers ([memo-check], [remindctl-authorize],
    [remindctl-today-json]) hand back.  [memo_check] always returns an
    [ExecResult]; so do the [remindctl] handlers when the binary is
    missing and whenever [spawn] hands back a child, for every behaviour
    of that child.  In those results [ok] is true exactly when the process
    was run and ended with exit code 0 (so exactly when [code = 0]); a
    missing binary gives [ok = false] with a stderr naming the path that
    was looked for; a non-zero exit gives [ok = false], that code, and the
    stderr the process wrote.  But when the binary is there and [spawn]
    itself throws, a [remindctl] handler returns no result: its promise is
    rejected with what [spawn] threw, so the failure crosses the IPC
    boundary as an exception. *)
Theorem exec_handlers_result_or_spawn_throw
    (bin : string) (exists_ : bool) (res : SpawnSyncReturns)
    (timeoutMs : Z) (sp : Spawn) :
  let m := memo_check bin exists_ res in
  (ok m = true <-> exists_ = true /\ status res = Some 0%Z) /\
  (ok m = true <-> code m = Some 0%Z) /\
  (exists_ = false ->
     ok m = false /\ code m = None /\ resolvedPath m = None /\
     stdout m = "" /\ occurs_in bin (stderr m)) /\
  (exists_ = true ->
     code m = status res /\
     stdout m = match sync_stdout res with Some out => out | None => "" end /\
     stderr m = match sync_stderr res with Some err => err | None => "" end /\
     resolvedPath m = Some bin) /\
  match sp with
  | Child evs =>
      exists r,
        remindctl timeoutMs bin exists_ sp = Fulfilled r /\
        (ok r = true <->
           exists_ = true /\
           exists pre, first_settling evs = Some (pre, Close (Some 0%Z))) /\
        (ok r = true <-> code r = Some 0%Z) /\
        (exists_ = false ->
           ok r = false /\ code r = None /\ resolvedPath r = None /\
           occurs_in bin (stderr r)) /\
        (forall pre c,
           exists_ = true ->
           first_settling evs = Some (pre, Close (Some c)) -> c <> 0%Z ->
           ok r = false /\ code r = Some c /\
           stderr r = captured_stderr pre)
  | Throws err =>
      if exists_
      then remindctl timeoutMs bin exists_ sp = Rejected err
      else exists r,
             remindctl timeoutMs bin exists_ sp = Fulfilled r /\
             ok r = false /\ code r = None /\ resolvedPath r = None /\
             occurs_in bin (stderr r)
  end.
Proof.
  cbv zeta.
  assert (Missing : occurs_in bin (remindctl_missing bin)).
  { unfold remindctl_missing.
    exists "remindctl binary not found at: ",
      (newline
       ++ "Run: cd apps/electron-desktop && npm run prepare:remindctl:all").
    now rewrite !append_assoc. }
  unfold memo_check, remindctl.
  destruct exists_; cbn [negb].
  - (* the binary is there *)
    split; [|split; [|split; [|split]]].
    + destruct (status res) as [[|p|p]|]; simpl; split;
        try (intros [_ H]; inversion H); try discriminate; auto.
    + destruct (status res) as [[|p|p]|]; simpl; split; intros H;
        try discriminate; try reflexivity; inversion H.
    + discriminate.
    + intros _. unfold or_empty. simpl. repeat split.
    + destruct sp as [evs|err]; [|reflexivity].
      rewrite call_result. eexists; split; [reflexivity|].
      destruct (first_settling evs) as [[pre e]|] eqn:F.
      * split; [|split; [|split]].
        -- rewrite verdict_ok_iff. split.
           ++ intros ->. split; [reflexivity|]. now exists pre.
           ++ intros (_ & pre' & H). now inversion H.
        -- apply verdict_code_iff.
        -- discriminate.
        -- intros pre' c _ H Hc. inversion H; subst; clear H. simpl.
           destruct c; try (now elim Hc); repeat split.
      * split; [|split; [|split]]; simpl.
        -- split; [discriminate|]. intros (_ & pre & H); discriminate.
        -- split; discriminate.
        -- discriminate.
        -- intros pre c _ H; discriminate.
  - (* the binary is missing *)
    split; [|split; [|split; [|split]]].
    + simpl. split; [discriminate|]. intros [H _]; discriminate.
    + simpl. split; discriminate.
    + intros _. simpl. repeat split. unfold memo_missing.
      apply occurs_in_middle.
    + discriminate.
    + destruct sp as [evs|err].
      * eexists; split; [reflexivity|]. simpl.
        split; [|split; [|split]].
        -- split; [discriminate|]. intros [H _]; discriminate.
        -- split; discriminate.
        -- intros _. repeat split. exact Missing.
        -- intros pre c H; discriminate.
      * eexists; split; [reflexivity|]. simpl. repeat split. exact Missing.
Qed.

End ExecFacts.

Module JsonFacts.
Import JsString JsStringFacts Json.

Lemma obj_get_set_same (k : string) (v : json) (o : object) :
  obj_get k (obj_set k v o) = Some v.
Proof.
  induction o as [|[k' v'] o IH]; simpl.
  - now rewrite String.eqb_refl.
  - destruct (String.eqb k k') eqn:E; simpl; rewrite E; [reflexivity|exact IH].
Qed.

Lemma obj_get_set_other (k k' : string) (v : json) (o : object) :
  k <> k' -> obj_get k (obj_set k' v o) = obj_get k o.
Proof.
  intros Hne. apply String.eqb_neq in Hne.
  induction o as [|[k2 v2] o IH]; simpl.
  - now rewrite Hne.
  - destruct (String.eqb k' k2) eqn:E; simpl.
    + apply String.eqb_eq in E; subst k2. now rewrite Hne.
    + destruct (String.eqb k k2); [reflexivity|exact IH].
Qed.

Lemma Set_has_true (s : list string) (x : string) :
  Set_has s x = true <-> In x s.
Proof.
  unfold Set_has. rewrite existsb_exists. split.
  - intros (y & Hy & E). apply String.eqb_eq in E. now subst.
  - intros H. exists x. split; [exact H | apply String.eqb_refl].
Qed.

Lemma Set_has_app (s : list string) (x y : string) :
  Set_has (s ++ [x]) y = Set_has s y || String.eqb y x.
Proof.
  unfold Set_has. rewrite existsb_app. simpl. now rewrite orb_false_r.
Qed.

Lemma filter_filter {A} (p q : A -> bool) (l : list A) :
  filter p (filter q l) = filter (fun x => q x && p x) l.
Proof.
  induction l as [|x l IH]; simpl; [reflexivity|].
  destruct (q x); simpl; [destruct (p x)|]; now rewrite IH.
Qed.

Lemma filter_all_true {A} (p : A -> bool) (l : list A) :
  (forall x, In x l -> p x = true) -> filter p l = l.
Proof.
  induction l as [|x l IH]; simpl; intros H; [reflexivity|].
  rewrite (H x (or_introl eq_refl)). f_equal. apply IH. auto.
Qed.

(** The set built by [new Set] from [l], starting from the elements [acc]
    inserted so far. *)
Lemma fold_Set_add (l acc : list string) :
  fold_left Set_add l acc =
  (acc ++ filter (fun y => negb (Set_has acc y)) (first_occurrences l))%list.
Proof.
  revert acc; induction l as [|x l IH]; intros acc; simpl.
  - now rewrite app_nil_r.
  - rewrite IH. unfold Set_add at 1 2.
    rewrite filter_filter.
    destruct (Set_has acc x) eqn:Hx; simpl.
    + f_equal. apply filter_ext_in. intros y _.
      destruct (String.eqb y x) eqn:E; simpl; [|reflexivity].
      apply String.eqb_eq in E; subst y. now rewrite Hx.
    + rewrite <- app_assoc. simpl. do 2 f_equal.
      apply filter_ext. intros y. rewrite Set_has_app.
      rewrite negb_orb. apply andb_comm.
Qed.

(** [unique] does what the design document says of it. *)
Lemma unique_first_occurrences (l : list string) :
  unique l = first_occurrences l.
Proof.
  unfold unique, new_Set. rewrite fold_Set_add. simpl.
  apply filter_all_true. reflexivity.
Qed.

Lemma In_first_occurrences (l : list string) (x : string) :
  In x (first_occurrences l) <-> In x l.
Proof.
  induction l as [|y l IH]; simpl; [tauto|].
  rewrite filter_In, IH. split.
  - intros [H|[H _]]; auto.
  - intros [H|H]; auto.
    destruct (String.eqb x y) eqn:E.
    + apply String.eqb_eq in E; auto.
    + right. split; [exact H | reflexivity].
Qed.

Lemma NoDup_first_occurrences (l : list string) :
  NoDup (first_occurrences l).
Proof.
  induction l as [|y l IH]; simpl; constructor.
  - rewrite filter_In. intros [_ H]. now rewrite String.eqb_refl in H.
  - now apply NoDup_filter.
Qed.

Lemma first_occurrences_NoDup (l : list string) :
  NoDup l -> first_occurrences l = l.
Proof.
  induction l as [|y l IH]; simpl; intros H; [reflexivity|].
  inversion H as [|? ? Hy Hl]; subst. rewrite (IH Hl). f_equal.
  apply filter_all_true. intros x Hx.
  destruct (String.eqb x y) eqn:E; [|reflexivity].
  apply String.eqb_eq in E; subst. contradiction.
Qed.

Lemma filter_comm {A} (p q : A -> bool) (l : list A) :
  filter p (filter q l) = filter q (filter p l).
Proof.
  rewrite !filter_filter. apply filter_ext. intros x. apply andb_comm.
Qed.

Lemma first_occurrences_snoc_filtered (l : list string) (x : string) :
  filter (fun y => negb (String.eqb y x)) (first_occurrences (l ++ [x])) =
  filter (fun y => negb (String.eqb y x)) (first_occurrences l).
Proof.
  induction l as [|z l IH]; simpl.
  - now rewrite String.eqb_refl.
  - rewrite (filter_comm _ _ (first_occurrences (l ++ [x]))), IH.
    rewrite (filter_comm _ _ (first_occurrences l)).
    reflexivity.
Qed.

Lemma first_occurrences_app_present (l : list string) (x : string) :
  In x l -> first_occurrences (l ++ [x]) = first_occurrences l.
Proof.
  induction l as [|y l IH]; simpl; intros H; [contradiction|].
  f_equal. destruct (String.eqb x y) eqn:E.
  - apply String.eqb_eq in E; subst y.
    apply first_occurrences_snoc_filtered.
  - destruct H as [H|H]; [subst; now rewrite String.eqb_refl in E|].
    now rewrite (IH H).
Qed.

Lemma first_occurrences_app_absent (l : list string) (x : string) :
  ~ In x l ->
  first_occurrences (l ++ [x]) = (first_occurrences l ++ [x])%list.
Proof.
  induction l as [|y l IH]; simpl; intros H; [reflexivity|].
  f_equal. rewrite IH by tauto.
  rewrite filter_app. simpl.
  destruct (String.eqb x y) eqn:E; [|reflexivity].
  apply String.eqb_eq in E. subst. tauto.
Qed.

Example getStringArray_mixed :
  getStringArray (Some (JArr [JStr " 111 "; JNum 222; JStr " "; JNull]))
  = ["111"; "222"; "null"].
Proof. reflexivity. Qed.

Example unique_keeps_first :
  unique ["b"; "a"; "b"; "c"; "a"] = ["b"; "a"; "c"].
Proof. reflexivity. Qed.

Example spread_overrides_in_place :
  obj_spread [("mode", JStr "remote"); ("port", JNum 1)]
             [("mode", JStr "local"); ("bind", JStr "loopback")]
  = [("mode", JStr "local"); ("port", JNum 1); ("bind", JStr "loopback")].
Proof. reflexivity. Qed.

End JsonFacts.

Module WelcomeFacts.
Import JsString JsStringFacts Json JsonFacts Welcome.

Lemma baseHash_of_nonempty (snap : ConfigSnapshot) (b : string) :
  baseHash_of snap = Some b -> b <> "".
Proof.
  unfold baseHash_of. destruct (hash snap) as [h|]; [|discriminate].
  destruct (truthy (trim h)) eqn:T; [|discriminate].
  intros H; inversion H; subst. now apply truthy_true.
Qed.

Lemma baseHash_of_trimmed (snap : ConfigSnapshot) (b : string) :
  baseHash_of snap = Some b -> exists h, hash snap = Some h /\ b = trim h.
Proof.
  unfold baseHash_of. destruct (hash snap) as [h|]; [|discriminate].
  destruct (truthy (trim h)); [|discriminate].
  intros H; inversion H; subst. now exists h.
Qed.

(** Splits a goal about a flow into the paths the flow can take. *)
Ltac flow_unfold :=
  unfold run_flow, discard, ensureExtendedConfig, saveApiKey,
    saveDefaultModel, saveTelegramToken, saveTelegramAllowFrom,
    ensureGogExecDefaults, loadConfig, requireBaseHash, attempt, bind,
    request, ret, throw.

Ltac flow_split gw :=
  repeat match goal with
         | |- context [rejects gw ?r] =>
             let E := fresh "Rj" in
             destruct (rejects gw r) eqn:E; simpl
         | |- context [desktop_api gw] =>
             let E := fresh "Da" in
             destruct (desktop_api gw) eqn:E; simpl
         | |- context [baseHash_of ?x] =>
             let E := fresh "Bh" in
             destruct (baseHash_of x) eqn:E; simpl
         | |- context [if negb ?c then _ else _] =>
             let E := fresh "Cd" in
             destruct c eqn:E; simpl
         | |- context [if obj_is_empty ?c then _ else _] =>
             let E := fresh "Em" in
             destruct (obj_is_empty c) eqn:E; simpl
         | |- context [match exists_ ?x with _ => _ end] =>
             let E := fresh "Ex" in
             destruct (exists_ x) as [[|]|] eqn:E; simpl
         end.

Ltac flow_paths gw := flow_unfold; flow_split gw.

Ltac solve_membership :=
  simpl; intros;
  repeat match goal with
         | H : _ \/ _ |- _ => destruct H
         | H : False |- _ => contradiction
         | H : ConfigPatch _ _ _ = ConfigPatch _ _ _ |- _ =>
             inversion H; subst; clear H
         | H : _ = ConfigPatch _ _ _ |- _ => discriminate H
         end.

(** Every [config.patch] a flow issues carries the trimmed, non-empty hash
    of the snapshot the flow has just read. *)
Lemma patch_carries_snapshot_hash (gw : Gateway) (state_port : Z)
    (state_token : string) (f : PatchFlow) (b : string) (raw : json)
    (note : string) :
  In (ConfigPatch b raw note) (fst (run_flow gw state_port state_token f)) ->
  baseHash_of (snapshot gw) = Some b.
Proof.
  destruct f; flow_paths gw; solve_membership;
    try congruence; try reflexivity.
Qed.

(** Without a usable hash, a flow that gets to its patch call site throws
    there. *)
Lemma no_hash_no_patch (gw : Gateway) (state_port : Z)
    (state_token : string) (f : PatchFlow) :
  baseHash_of (snapshot gw) = None ->
  reaches_patch gw state_port state_token f = true ->
  snd (run_flow gw state_port state_token f) = Threw hash_missing.
Proof.
  intros Hn. unfold reaches_patch.
  destruct f; flow_paths gw; try rewrite Hn; simpl;
    try congruence; try reflexivity.
Qed.

(** With a usable hash, a flow that gets to its patch call site issues the
    patch. *)
Lemma hash_then_patch (gw : Gateway) (state_port : Z)
    (state_token : string) (f : PatchFlow) (b : string) :
  baseHash_of (snapshot gw) = Some b ->
  reaches_patch gw state_port state_token f = true ->
  exists raw note,
    In (ConfigPatch b raw note) (fst (run_flow gw state_port state_token f)).
Proof.
  intros Hn. unfold reaches_patch.
  destruct f; flow_paths gw;
    repeat match goal with
           | H : baseHash_of (snapshot gw) = Some ?x |- _ =>
               tryif constr_eq x b then fail
               else (assert (x = b) by congruence; subst x)
           end;
    try congruence; intros _; do 2 eexists; simpl; eauto 6.
Qed.


(** What [{...cfg, ...patch}] holds under [gateway]. *)
Lemma seeded_gateway (state_port : Z) (state_token : string)
    (snap : ConfigSnapshot) :
  let cfg := getObject (config snap) in
  let gateway := getObject (obj_get "gateway" cfg) in
  let gatewayAuth := getObject (obj_get "auth" gateway) in
  obj_get "gateway"
    (obj_spread cfg (onboarding_patch state_port state_token snap)) =
  if needsGateway state_port state_token gateway gatewayAuth
  then Some (gateway_entry state_port state_token gateway gatewayAuth)
  else obj_get "gateway" cfg.
Proof.
  cbv zeta. unfold onboarding_patch.
  set (cfg := getObject (config snap)).
  set (gateway := getObject (obj_get "gateway" cfg)).
  set (gatewayAuth := getObject (obj_get "auth" gateway)).
  set (agents := getObject (obj_get "agents" cfg)).
  set (defaults := getObject (obj_get "defaults" agents)).
  destruct (needsGateway state_port state_token gateway gatewayAuth);
    destruct (truthy (trimmed_string defaults "workspace"));
    unfold obj_spread; simpl;
    repeat (rewrite obj_get_set_other by discriminate);
    rewrite ?obj_get_set_same; reflexivity.
Qed.

(** The scenario of the design document: nothing but [exists: false]. *)
Example seed_scenario :
  fst (ensureExtendedConfig
         (agreeable {| path := Some "/Users/u/openclaw/openclaw.json";
                       exists_ := Some false; valid := None; hash := None;
                       config := None |})
         18789 "s3cret" []) =
  [ConfigGet;
   ConfigSet
     (JObj [("gateway",
             JObj [("mode", JStr "local"); ("bind", JStr "loopback");
                   ("port", JNum 18789);
                   ("auth", JObj [("mode", JStr "token");
                                  ("token", JStr "s3cret")])]);
            ("agents",
             JObj [("defaults",
                    JObj [("workspace",
                           JStr "/Users/u/openclaw/workspace")])])])].
Proof. vm_compute. reflexivity. Qed.

(** An existing configuration that needs the gateway entry is patched
    against the snapshot's hash; without a hash the flow throws. *)
Example patch_scenario :
  ensureExtendedConfig
    (agreeable {| path := None; exists_ := Some true; valid := Some true;
                  hash := Some " abc "; 
                  config := Some (JObj [("agents",
                    JObj [("defaults",
                           JObj [("workspace", JStr "/w")])])]) |})
    18789 "s3cret" [] =
  ([ConfigGet;
    ConfigPatch "abc"
      (JObj [("gateway",
              JObj [("mode", JStr "local"); ("bind", JStr "loopback");
                    ("port", JNum 18789);
                    ("auth", JObj [("mode", JStr "token");
                                   ("token", JStr "s3cret")])])])
      "Welcome: ensure onboarding defaults (workspace/gateway)"],
   Returned tt)
  /\
  ensureExtendedConfig
    (agreeable {| path := None; exists_ := Some true; valid := Some true;
                  hash := Some "  "; config := None |})
    18789 "s3cret" [] = ([ConfigGet], Threw hash_missing).
Proof. split; vm_compute; reflexivity. Qed.




(** C7, as the code has it.  For a user id that is not blank and a
    snapshot that carries a base hash, the allow-list flow reads the
    existing list with [getStringArray] (entries stringified and trimmed,
    empty ones dropped), appends the id (without its [telegram:] or [tg:]
    prefix when what remains is all digits) and submits a patch whose
    [allowFrom] is that list with order preserved and later duplicates
    removed.  It has no duplicates and holds exactly the existing entries
    and the id.  When the existing list is itself free of duplicates, an
    id already present leaves it as it is and a new id goes last. *)
Theorem telegram_allow_list_merge
    (gw : Gateway) (telegramUserId b : string) :
  truthy (trim telegramUserId) = true ->
  rejects gw ConfigGet = None ->
  baseHash_of (snapshot gw) = Some b ->
  let id := normalize_user_id (trim telegramUserId) in
  let existing := existing_allowFrom (snapshot gw) in
  let merged := first_occurrences (existing ++ [id]) in
  (exists rest,
     fst (saveTelegramAllowFrom gw telegramUserId []) =
     ConfigGet
     :: ConfigPatch b
          (JObj [("channels",
                  JObj [("telegram",
                         JObj [("enabled", JBool true);
                               ("dmPolicy", JStr "allowlist");
                               ("allowFrom", json_strings merged)])])])
          "Welcome: configure Telegram allowFrom"
     :: rest) /\
  NoDup merged /\
  (forall x, In x merged <-> In x existing \/ x = id) /\
  (NoDup existing -> In id existing -> merged = existing) /\
  (NoDup existing -> ~ In id existing -> merged = (existing ++ [id])%list).
Proof.
  intros Hid Hget Hb. cbv zeta.
  split; [|split; [|split; [|split]]].
  - unfold saveTelegramAllowFrom, loadConfig, requireBaseHash, attempt,
      bind, request, ret.
    rewrite Hid. simpl. rewrite Hget. simpl. rewrite Hb. simpl.
    rewrite unique_first_occurrences.
    destruct (rejects gw (ConfigPatch _ _ _)); simpl; eexists; reflexivity.
  - apply NoDup_first_occurrences.
  - intros x. rewrite In_first_occurrences, in_app_iff. simpl.
    split; intros [H|H]; auto.
    + destruct H as [H|[]]; auto.
  - intros Hnd Hin. rewrite first_occurrences_app_present by exact Hin.
    now apply first_occurrences_NoDup.
  - intros Hnd Hin. rewrite first_occurrences_app_absent by exact Hin.
    now rewrite first_occurrences_NoDup.
Qed.

Lemma telegram_allow_list_merge_witness :
  truthy (trim "222") = true /\
  rejects (agreeable (telegram_snapshot [JStr "111"])) ConfigGet = None /\
  baseHash_of (snapshot (agreeable (telegram_snapshot [JStr "111"])))
    = Some "h1" /\
  NoDup (first_occurrences (["111"] ++ ["222"])).
Proof.
  split; [reflexivity|]. split; [reflexivity|]. split; [reflexivity|].
  exact (proj1 (proj2 (telegram_allow_list_merge
                         (agreeable (telegram_snapshot [JStr "111"]))
                         "222" "h1" eq_refl eq_refl eq_refl))).
Defined.

(** The scenario of the design document: ["111"] and the new id "222". *)
Example allow_list_scenario :
  fst (saveTelegramAllowFrom (agreeable (telegram_snapshot [JStr "111"]))
         "222" []) =
  [ConfigGet;
   ConfigPatch "h1"
     (JObj [("channels",
             JObj [("telegram",
                    JObj [("enabled", JBool true);
                          ("dmPolicy", JStr "allowlist");
                          ("allowFrom", JArr [JStr "111"; JStr "222"])])])])
     "Welcome: configure Telegram allowFrom";
   ChannelsStatus true 12000].
Proof. vm_compute. reflexivity. Qed.

Example allow_list_prefixed_id :
  normalize_user_id (trim " TG:222 ") = "222" /\
  normalize_user_id (trim "telegram:@bob") = "telegram:@bob".
Proof. split; reflexivity. Qed.

(** A blank id stops the flow before any call is made. *)
Example allow_list_blank_id :
  saveTelegramAllowFrom (agreeable (telegram_snapshot [JStr "111"])) "  " []
  = ([], Returned false).
Proof. reflexivity. Qed.

(** C7 as stated fails: with the existing list ["111", "111"] and the id
    "111", which is present, the submitted list is ["111"], not the
    existing list. *)
Lemma present_id_shrinks_duplicated_list :
  existing_allowFrom (telegram_snapshot [JStr "111"; JStr "111"])
    = ["111"; "111"] /\
  In (normalize_user_id (trim "111")) ["111"; "111"] /\
  exists raw note rest,
    fst (saveTelegramAllowFrom
           (agreeable (telegram_snapshot [JStr "111"; JStr "111"]))
           "111" []) = ConfigGet :: ConfigPatch "h1" raw note :: rest /\
    at_path ["channels"; "telegram"; "allowFrom"] raw
      = Some (json_strings ["111"]) /\
    json_strings ["111"] <> json_strings ["111"; "111"].
Proof.
  split; [reflexivity|]. split; [left; reflexivity|].
  do 3 eexists. split; [vm_compute; reflexivity|].
  split; [reflexivity | discriminate].
Qed.

End WelcomeFacts.

Module ConfigProtocolFacts.
Import JsString JsStringFacts Json Welcome WelcomeFacts ConfigProtocol.

(** C1.  The Gateway's side (modelled from the design document): a patch
    whose [baseHash] differs from the fingerprint of the configuration at
    apply time is rejected with the stale-hash error, one without
    [baseHash] with the missing-hash error, and in both cases the persisted
    configuration is returned unchanged.  The renderer's side: every
    [config.patch] that any of the six patching flows issues carries the
    non-empty, trimmed hash of the snapshot the flow has just fetched; when
    that snapshot has no usable hash and the flow gets to its patch call
    site, it throws "Config base hash missing" and no [config.patch] is
    issued. *)
Theorem stale_patch_rejected_and_flows_send_base_hash
    (fingerprint : string -> string) (parse : string -> option json)
    (render : json -> string) (persisted h raw : string)
    (gw : Gateway) (state_port : Z) (state_token : string)
    (f : PatchFlow) :
  h <> fingerprint persisted ->
  config_patch fingerprint parse render persisted (Some h) raw
    = (persisted, Rejected BaseHashStale) /\
  config_patch fingerprint parse render persisted None raw
    = (persisted, Rejected BaseHashMissing) /\
  (forall b doc note,
     In (ConfigPatch b doc note)
        (fst (run_flow gw state_port state_token f)) ->
     b <> "" /\ baseHash_of (snapshot gw) = Some b /\
     exists hs, hash (snapshot gw) = Some hs /\ b = trim hs) /\
  (baseHash_of (snapshot gw) = None ->
   (forall b doc note,
      ~ In (ConfigPatch b doc note)
           (fst (run_flow gw state_port state_token f))) /\
   (reaches_patch gw state_port state_token f = true ->
    snd (run_flow gw state_port state_token f) = Threw hash_missing)) /\
  (forall b,
     baseHash_of (snapshot gw) = Some b ->
     reaches_patch gw state_port state_token f = true ->
     exists doc note,
       In (ConfigPatch b doc note)
          (fst (run_flow gw state_port state_token f))).
Proof.
  intros Hne. split; [|split; [|split; [|split]]].
  - unfold config_patch.
    destruct (String.eqb h (fingerprint persisted)) eqn:E; [|reflexivity].
    apply String.eqb_eq in E. contradiction.
  - reflexivity.
  - intros b doc note Hin.
    pose proof (patch_carries_snapshot_hash _ _ _ _ _ _ _ Hin) as Hb.
    split; [exact (baseHash_of_nonempty _ _ Hb)|].
    split; [exact Hb | exact (baseHash_of_trimmed _ _ Hb)].
  - intros Hnone. split.
    + intros b doc note Hin.
      pose proof (patch_carries_snapshot_hash _ _ _ _ _ _ _ Hin) as Hb.
      congruence.
    + now apply no_hash_no_patch.
  - intros b Hb Hr. now apply hash_then_patch.
Qed.

Lemma stale_patch_rejected_and_flows_send_base_hash_witness :
  "h0" <> "h1" /\
  config_patch (fun _ => "h1") (fun _ => Some (JObj [])) (fun _ => "{}")
    "{}" (Some "h0") "{}" = ("{}", Rejected BaseHashStale).
Proof.
  assert (Hne : "h0" <> (fun _ : string => "h1") "{}") by discriminate.
  split; [discriminate|].
  exact (proj1 (stale_patch_rejected_and_flows_send_base_hash
                  (fun _ => "h1") (fun _ => Some (JObj []))
                  (fun _ => "{}") "{}" "h0" "{}"
                  (agreeable (telegram_snapshot [])) 18789 "s3cret"
                  EnsureExtendedConfig Hne)).
Defined.

Example merge_objects_replace_arrays :
  merge (JObj [("channels",
                JObj [("telegram",
                       JObj [("allowFrom", JArr [JStr "1"; JStr "2"])])])])
        (JObj [("channels",
                JObj [("telegram",
                       JObj [("enabled", JBool true);
                             ("allowFrom", JArr [JStr "1"])])]);
               ("gateway", JObj [("mode", JStr "local")])])
  = JObj [("channels",
           JObj [("telegram",
                  JObj [("enabled", JBool true);
                        ("allowFrom", JArr [JStr "1"; JStr "2"])])]);
          ("gateway", JObj [("mode", JStr "local")])].
Proof. reflexivity. Qed.

(** With the right hash the patch goes through and is merged, so the
    rejection above is not the only behaviour of the model. *)
Example fresh_patch_accepted :
  config_patch (fun _ => "h1")
    (fun text => if String.eqb text "patch"
                 then Some (JObj [("a", JObj [("y", JNum 2)])])
                 else Some (JObj [("a", JObj [("x", JNum 1)])]))
    (fun doc => match at_path ["a"; "y"] doc, at_path ["a"; "x"] doc with
                | Some (JNum 2), Some (JNum 1) => "merged"
                | _, _ => "other"
                end)
    "current" (Some "h1") "patch" = ("merged", Accepted).
Proof. reflexivity. Qed.

End ConfigProtocolFacts.

Module ChatFacts.
Import JsString Json Chat.


Lemma deliver_all_snoc (Store : Type) (reducer : Store -> Action -> Store)
    (s : Store) (evts : list GatewayEvent) (e : GatewayEvent) :
  deliver_all Store reducer s (evts ++ [e]) =
  deliver Store reducer (deliver_all Store reducer s evts) e.
Proof. unfold deliver_all. now rewrite fold_left_app. Qed.

(** For any chat slice: if stale deltas left the text alone, then after
    the first delta of a run no delta at all could change its text. *)
Lemma stale_dropping_would_freeze_runs
    (Store : Type) (reducer : Store -> Action -> Store) (init : Store)
    (text_of : string -> Store -> string) :
  drops_stale_deltas reducer init text_of ->
  forall evts r m n text,
    highest_seq r evts = Some m ->
    text_of r (deliver_all Store reducer init (evts ++ [delta r n text])%list)
    = text_of r (deliver_all Store reducer init evts).
Proof.
  intros H evts r m n text Hm.
  rewrite <- (H evts r m m text Hm (Z.le_refl m)).
  rewrite !deliver_all_snoc. reflexivity.
Qed.


(** The chat turn of the design document goes through with that slice. *)
Example chat_turn_scenario :
  accumulated "run-1"
    (deliver_all ChatStore spec_reducer empty_store
       [delta "run-1" 1 "Hel"; delta "run-1" 2 "lo";
        delta "run-1" 3 " world"]) = "Hello world" /\
  deliver_all ChatStore spec_reducer empty_store
    [delta "run-1" 1 "Hel"; delta "run-1" 2 "lo"; delta "run-1" 3 " world";
     chat_event "run-1" 4 Final None None]
  = {| messages := ["Hello world"]; streamByRun := [] |}.
Proof. split; reflexivity. Qed.

End ChatFacts.

Module SupervisorFacts.
Import JsString JsStringFacts Supervisor.

Lemma same_state_refl (a : GatewayState) : same_state a a = true.
Proof.
  destruct a; simpl; rewrite Z.eqb_refl, !String.eqb_refl; reflexivity.
Qed.

Lemma last_seen_snoc (l : list GatewayState) (d : option GatewayState)
    (x : GatewayState) :
  last_seen (l ++ [x]) d = Some x.
Proof. unfold last_seen. now rewrite fold_left_app. Qed.

Lemma transitions_snoc (l : list GatewayState) (d : option GatewayState)
    (x : GatewayState) :
  transitions (l ++ [x]) d same_state =
  (transitions l d same_state ++
   match last_seen l d with
   | Some y => if same_state x y then [] else [x]
   | None => [x]
   end)%list.
Proof.
  revert d; induction l as [|a l IH]; intros d; simpl.
  - destruct d as [y|]; [destruct (same_state x y)|]; reflexivity.
  - unfold last_seen in *; simpl.
    destruct d as [y|]; [destruct (same_state a y)|]; simpl;
      rewrite IH; reflexivity.
Qed.

Lemma broadcast_in_step (win : option Window) (st : GatewayState)
    (m : Main) :
  in_step (broadcastGatewayState win st m).
Proof. unfold in_step; simpl. now rewrite last_seen_snoc. Qed.

(** Re-sending the current state adds no transition. *)
Lemma rebroadcast_transitions (win : option Window) (st : GatewayState)
    (m : Main) :
  in_step m -> gatewayState m = Some st ->
  transitions (broadcasts (broadcastGatewayState win st m)) None same_state
  = transitions (broadcasts m) None same_state.
Proof.
  unfold in_step. intros I E. simpl. rewrite transitions_snoc.
  rewrite <- I, E, same_state_refl. apply app_nil_r.
Qed.

Lemma adopt_keeps (m : Main) :
  gatewayState (snd (adopt_new_window m)) = gatewayState m /\
  broadcasts (snd (adopt_new_window m)) = broadcasts m.
Proof. split; reflexivity. Qed.

Lemma ensureMainWindow_quiet (m : Main) :
  in_step m ->
  let m' := snd (ensureMainWindow m) in
  in_step m' /\ gatewayState m' = gatewayState m /\
  transitions (broadcasts m') None same_state
  = transitions (broadcasts m) None same_state.
Proof.
  intros I. cbv zeta. unfold ensureMainWindow.
  destruct (match mainWindow m with
            | Some w => if isDestroyed m w then None else Some w
            | None => None
            end) as [w|]; [simpl; auto|].
  destruct (preloadPathForWindow m) as [pp|]; [|simpl; auto].
  destruct (rendererIndexForWindow m) as [ri|]; [|simpl; auto].
  destruct (adopt_keeps m) as [Kg Kb].
  destruct (adopt_new_window m) as [nextWin m1]. simpl in Kg, Kb.
  assert (I1 : in_step m1) by (unfold in_step in *; congruence).
  destruct (gatewayState m1) as [st|] eqn:G; simpl.
  - split; [apply broadcast_in_step|]. split; [congruence|].
    rewrite <- Kb. apply (rebroadcast_transitions (Some nextWin) st m1 I1 G).
  - split; [exact I1|]. split; congruence.
Qed.

Lemma user_step_quiet (m : Main) (e : UserEvent) :
  in_step m ->
  in_step (user_step m e) /\
  gatewayState (user_step m e) = gatewayState m /\
  transitions (broadcasts (user_step m e)) None same_state
  = transitions (broadcasts m) None same_state.
Proof.
  intros I. destruct e as [w|]; simpl.
  - unfold window_closed.
    destruct ((w <? created m)%nat && negb (isDestroyed m w)); simpl; auto.
  - apply ensureMainWindow_quiet, I.
Qed.

Lemma user_steps_quiet (es : list UserEvent) (m : Main) :
  in_step m ->
  in_step (user_steps es m) /\
  gatewayState (user_steps es m) = gatewayState m /\
  transitions (broadcasts (user_steps es m)) None same_state
  = transitions (broadcasts m) None same_state.
Proof.
  revert m; induction es as [|e es IH]; intros m I; simpl; [auto|].
  destruct (user_step_quiet m e I) as (I1 & G1 & T1).
  destruct (IH _ I1) as (I2 & G2 & T2).
  unfold user_steps in *. simpl.
  split; [exact I2|]. split; congruence.
Qed.

(** Before the startup handler has run there is nothing to show and no
    window can be made. *)
Lemma user_steps_boot (es : list UserEvent) : user_steps es boot = boot.
Proof.
  induction es as [|e es IH]; [reflexivity|].
  unfold user_steps in *; simpl.
  destruct e as [w|]; simpl; [|exact IH].
  unfold window_closed; simpl. exact IH.
Qed.

Lemma concat_sixth (sep a b c d e x f g : string) :
  String.concat sep [a; b; c; d; e; x; f; g] =
  (a ++ sep ++ b ++ sep ++ c ++ sep ++ d ++ sep ++ e ++ sep)
  ++ x ++ (sep ++ f ++ sep ++ g).
Proof. simpl. now rewrite !append_assoc. Qed.

(** The failure text holds the trimmed stderr tail, or a placeholder. *)
Lemma failure_details_shows_tail (su : Startup) (tail : string) :
  occurs_in (shown_tail tail) (failure_details su tail).
Proof.
  unfold failure_details. rewrite concat_sixth. apply occurs_in_middle.
Qed.

Lemma occurs_in_empty (hay : string) : occurs_in "" hay.
Proof. exists "", hay. reflexivity. Qed.

Lemma startup_finish_broadcasts (su : Startup) (win : option Window)
    (ok : bool) (tail : string) (m : Main) :
  startup_finish su win ok tail m =
  broadcastGatewayState win
    (if ok then Ready (port su) (logsDir su) (url_of su) (token su)
     else Failed (port su) (logsDir su) (failure_details su tail) (token su))
    m.
Proof. destruct ok; reflexivity. Qed.

(** C2, amended.  For every startup, whatever the user does to the window
    meanwhile: the states the supervisor goes through are exactly
    [Starting] and then [Ready] when the port opened within the deadline
    ([ok]), and exactly [Starting] and then [Failed] when it did not; the
    [details] of that [Failed] state contain the stderr tail captured from
    the child with the white space around it removed, or "<empty>" in its
    place when nothing is left.  When the user leaves the window alone,
    the handler's two broadcasts are the only ones and both reach the
    window. *)
Theorem startup_state_sequence
    (su : Startup) (ok : bool) (tail : string)
    (before during after : list UserEvent) :
  let m := start su ok tail before during after in
  let starting := Starting (port su) (logsDir su) (token su) in
  let final :=
    if ok then Ready (port su) (logsDir su) (url_of su) (token su)
    else Failed (port su) (logsDir su) (failure_details su tail) (token su) in
  transitions (broadcasts m) None same_state = [starting; final] /\
  gatewayState m = Some final /\
  broadcasts (start su ok tail [] [] []) = [starting; final] /\
  sent (start su ok tail [] [] []) = [(0%nat, starting); (0%nat, final)] /\
  occurs_in (shown_tail tail) (failure_details su tail) /\
  occurs_in (trim tail) (failure_details su tail).
Proof.
  cbv zeta.
  split; [|split; [|split; [|split; [|split]]]].
  - unfold start. rewrite user_steps_boot.
    destruct (startup_begin su boot) as [win m1] eqn:B.
    assert (I1 : in_step m1 /\
                 gatewayState m1
                 = Some (Starting (port su) (logsDir su) (token su)) /\
                 transitions (broadcasts m1) None same_state
                 = [Starting (port su) (logsDir su) (token su)]).
    { inversion B; subst. repeat split. }
    destruct I1 as (I1 & G1 & T1).
    destruct (user_steps_quiet during m1 I1) as (I2 & G2 & T2).
    rewrite startup_finish_broadcasts.
    match goal with
    | |- context [broadcastGatewayState win ?st _] => set (final := st)
    end.
    pose proof (broadcast_in_step win final (user_steps during m1)) as I3.
    destruct (user_steps_quiet after _ I3) as (I4 & G4 & T4).
    rewrite T4. simpl. rewrite transitions_snoc, T2, T1.
    unfold in_step in I2. rewrite <- I2, G2, G1.
    subst final. destruct ok; reflexivity.
  - unfold start. rewrite user_steps_boot.
    destruct (startup_begin su boot) as [win m1].
    rewrite startup_finish_broadcasts.
    match goal with
    | |- context [broadcastGatewayState win ?st ?m0] =>
        pose proof (broadcast_in_step win st m0) as I3
    end.
    destruct (user_steps_quiet after _ I3) as (I4 & G4 & T4).
    rewrite G4. reflexivity.
  - destruct ok; reflexivity.
  - destruct ok; reflexivity.
  - apply failure_details_shows_tail.
  - pose proof (failure_details_shows_tail su tail) as H.
    unfold shown_tail in H.
    destruct (truthy (trim tail)) eqn:T; [exact H|].
    apply truthy_false in T. rewrite T. apply occurs_in_empty.
Qed.

(** C2 as first stated fails when the captured tail has white space around
    it: the [details] of the failed state hold the tail trimmed, and the
    tail as captured occurs nowhere in them. *)
Lemma padded_tail_is_not_in_details :
  let tail := " Error: listen EADDRINUSE" ++ newline in
  let m := start sample_startup false tail [] [] [] in
  exists details,
    gatewayState m = Some (Failed 18789 "/Users/u/logs" details "s3cret") /\
    occurs_in "Error: listen EADDRINUSE" details /\
    ~ occurs_in tail details.
Proof.
  cbv zeta. eexists. split; [reflexivity|]. split.
  - apply failure_details_shows_tail.
  - intros H. apply occurs_in_includes in H. vm_compute in H.
    discriminate H.
Qed.

(** A blank tail is not shown at all: the placeholder stands in for it. *)
Example blank_tail_shows_placeholder :
  let tail := "  " ++ newline in
  shown_tail tail = "<empty>" /\
  ~ occurs_in tail (failure_details sample_startup tail).
Proof.
  split; [reflexivity|].
  intros H. apply occurs_in_includes in H. vm_compute in H. discriminate H.
Qed.

(** A window made while a state is known is sent that state at once. *)
Lemma late_window_gets_last_state (m : Main) (st : GatewayState)
    (pp ri : string) :
  mainWindow m = None ->
  preloadPathForWindow m = Some pp -> rendererIndexForWindow m = Some ri ->
  gatewayState m = Some st ->
  isDestroyed m (created m) = false ->
  fst (ensureMainWindow m) = Some (created m) /\
  sent (snd (ensureMainWindow m)) = (sent m ++ [(created m, st)])%list /\
  mainWindow (snd (ensureMainWindow m)) = Some (created m).
Proof.
  intros Hw Hp Hr Hg Hd. unfold ensureMainWindow.
  rewrite Hw, Hp, Hr. simpl. rewrite Hg. simpl.
  unfold isDestroyed in *. simpl. rewrite Hd. repeat split.
Qed.

(** C9 at its failing input.  The user closes the window while the
    gateway is starting and opens it again: the new window (1) is the
    current one and was sent [Starting] when it was made, but the startup
    handler sends the next state to the window it captured before waiting
    (0, now destroyed), so the current window never receives [Ready] or
    [Failed] although [gatewayState] holds it. *)
Theorem replaced_window_misses_transition
    (su : Startup) (ok : bool) (tail : string) :
  let m := start su ok tail [] [CloseWindow 0; Activate] [] in
  let starting := Starting (port su) (logsDir su) (token su) in
  let final :=
    if ok then Ready (port su) (logsDir su) (url_of su) (token su)
    else Failed (port su) (logsDir su) (failure_details su tail) (token su) in
  mainWindow m = Some 1%nat /\
  isDestroyed m 1 = false /\
  gatewayState m = Some final /\
  inbox 1 m = [starting] /\
  inbox 0 m = [starting].
Proof. destruct ok; repeat split. Qed.

(** C3 at its failing input.  With a live child, [kill("SIGTERM")]
    succeeds and sets [child.killed]; after the grace period the test
    [!child.killed] is therefore false and SIGKILL is never sent, whether
    or not the process has ended.  A child that ignores SIGTERM is still
    running when [stopGatewayChild] returns. *)
Theorem stop_never_escalates_for_live_child
    (m : Main) (c : ChildProcess) (exits_in_grace : bool) :
  gateway m = Some c -> running c = true ->
  gateway (fst (stopGatewayChild exits_in_grace m)) = None /\
  exists c',
    snd (stopGatewayChild exits_in_grace m) = Some c' /\
    kill_calls c' = (kill_calls c ++ [SIGTERM])%list /\
    delivered c' = (delivered c ++ [SIGTERM])%list /\
    running c' = negb exits_in_grace.
Proof.
  intros Hg Hr. unfold stopGatewayChild. rewrite Hg. simpl.
  split; [reflexivity|]. unfold child_kill. rewrite Hr. simpl.
  eexists. repeat split.
Qed.

Lemma stop_never_escalates_for_live_child_witness :
  gateway (snd (startup_begin sample_startup boot)) = Some (child sample_startup)
  /\ running (child sample_startup) = true
  /\ exists c',
       snd (stopGatewayChild false (snd (startup_begin sample_startup boot)))
       = Some c' /\
       kill_calls c' = [SIGTERM] /\ delivered c' = [SIGTERM] /\
       running c' = true.
Proof.
  split; [reflexivity|]. split; [reflexivity|].
  exact (proj2 (stop_never_escalates_for_live_child
                  (snd (startup_begin sample_startup boot))
                  (child sample_startup) false eq_refl eq_refl)).
Defined.

(** The second [kill] is reached only when the first could not be
    delivered, that is, for a process that was already gone. *)
Lemma stop_escalates_only_after_failed_term
    (m : Main) (c : ChildProcess) (exits_in_grace : bool) :
  gateway m = Some c -> running c = false -> killed c = false ->
  exists c',
    snd (stopGatewayChild exits_in_grace m) = Some c' /\
    kill_calls c' = (kill_calls c ++ [SIGTERM; SIGKILL])%list /\
    delivered c' = delivered c.
Proof.
  intros Hg Hr Hk. unfold stopGatewayChild. rewrite Hg. simpl.
  unfold child_kill. rewrite Hr. simpl. rewrite Hk. simpl.
  eexists. repeat split. now rewrite <- app_assoc.
Qed.

End SupervisorFacts.

(* ================================================================== *)
(** * Further properties of the same code *)
(* ================================================================== *)

Module TrimFacts.
Import JsString JsStringFacts JsStringMore.

Lemma trimEnd_idempotent (s : string) : trimEnd (trimEnd s) = trimEnd s.
Proof.
  induction s as [|c r IH]; simpl; [reflexivity|].
  destruct (trimEnd r) as [|d r'] eqn:E.
  - destruct (is_ws c) eqn:W; simpl; [reflexivity|]. now rewrite W.
  - simpl in *. rewrite IH. reflexivity.
Qed.

(** The head of a string survives [trimEnd] when it is not white space. *)
Lemma trimEnd_head (c : ascii) (r : string) :
  is_ws c = false -> exists r', trimEnd (String c r) = String c r'.
Proof.
  intros W. simpl. destruct (trimEnd r) as [|d r'].
  - rewrite W. now exists "".
  - now exists (String d r').
Qed.

Lemma trimStart_head (c : ascii) (r : string) :
  is_ws c = false -> trimStart (String c r) = String c r.
Proof. intros W. simpl. now rewrite W. Qed.

Lemma trimStart_cases (s : string) :
  trimStart s = "" \/
  exists c r, trimStart s = String c r /\ is_ws c = false.
Proof.
  induction s as [|c r IH]; simpl; [now left|].
  destruct (is_ws c) eqn:W; [exact IH|].
  right. now exists c, r.
Qed.

Lemma trim_idempotent (s : string) : trim (trim s) = trim s.
Proof.
  unfold trim.
  destruct (trimStart_cases s) as [E|(c & r & E & W)]; rewrite E.
  - reflexivity.
  - destruct (trimEnd_head c r W) as (r' & E').
    rewrite E', (trimStart_head c r' W), <- E'.
    apply trimEnd_idempotent.
Qed.

(** A string with a character that is not white space does not trim to
    nothing. *)
Lemma trimEnd_keeps_ink (a b : string) (c : ascii) :
  is_ws c = false -> trimEnd (a ++ String c b) <> "".
Proof.
  intros W. induction a as [|x a IH]; simpl.
  - destruct (trimEnd b); [rewrite W|]; discriminate.
  - destruct (trimEnd (a ++ String c b)); [contradiction|discriminate].
Qed.

Lemma trim_keeps_ink (a b : string) (c : ascii) :
  is_ws c = false -> trim (a ++ String c b) <> "".
Proof.
  intros W. unfold trim.
  induction a as [|x a IH]; simpl.
  - rewrite W. apply (trimEnd_keeps_ink "" b c W).
  - destruct (is_ws x); [exact IH|].
    apply (trimEnd_keeps_ink (String x a) b c W).
Qed.

Lemma trimEnd_no_ws (s : string) : no_ws s = true -> trimEnd s = s.
Proof.
  induction s as [|c r IH]; simpl; [reflexivity|].
  intros H. apply andb_prop in H. destruct H as [Hc Hr].
  rewrite (IH Hr). apply negb_true_iff in Hc.
  destruct r; [now rewrite Hc | reflexivity].
Qed.

Lemma trim_no_ws (s : string) : no_ws s = true -> trim s = s.
Proof.
  intros H. unfold trim.
  destruct s as [|c r]; [reflexivity|].
  pose proof H as H'. simpl in H'. apply andb_prop in H'.
  destruct H' as [Hc _]. apply negb_true_iff in Hc.
  rewrite (trimStart_head c r Hc). now apply trimEnd_no_ws.
Qed.

End TrimFacts.

Module WelcomeHelperFacts.
Import JsString JsStringFacts JsStringMore TrimFacts Json JsonFacts Welcome.

Lemma filter_length_le {A} (p : A -> bool) (l : list A) :
  (length (filter p l) <= length l)%nat.
Proof.
  induction l as [|x l IH]; simpl; [constructor|].
  destruct (p x); simpl; [apply le_n_S, IH | apply le_S, IH].
Qed.

Lemma first_occurrences_length (l : list string) :
  (length (first_occurrences l) <= length l)%nat.
Proof.
  induction l as [|x l IH]; simpl; [constructor|].
  apply le_n_S. eapply Nat.le_trans; [apply filter_length_le | exact IH].
Qed.

(** [unique]: the result has no duplicates and exactly the elements of the
    input; each element stays at the place of its first occurrence; a list
    without duplicates comes back unchanged, so [unique] is idempotent; the
    result is never longer than the input. *)
Theorem unique_keeps_first_occurrences (l : list string) :
  unique l = first_occurrences l /\
  NoDup (unique l) /\
  (forall x, In x (unique l) <-> In x l) /\
  unique (unique l) = unique l /\
  (length (unique l) <= length l)%nat /\
  (NoDup l -> unique l = l).
Proof.
  rewrite !unique_first_occurrences.
  split; [reflexivity|].
  split; [apply NoDup_first_occurrences|].
  split; [intros x; apply In_first_occurrences|].
  split; [apply first_occurrences_NoDup, NoDup_first_occurrences|].
  split; [apply first_occurrences_length|].
  apply first_occurrences_NoDup.
Qed.

(** [getStringArray]: every entry of the result is non-empty and free of
    surrounding white space; the result is never longer than the array it
    was read from; anything that is not an array gives the empty list. *)
Theorem getStringArray_entries_are_clean (value : option json) :
  Forall (fun x => x <> "" /\ trim x = x) (getStringArray value) /\
  match value with
  | Some (JArr items) =>
      (length (getStringArray value) <= length items)%nat
  | _ => getStringArray value = []
  end.
Proof.
  split.
  - apply Forall_forall. intros x Hx.
    destruct value as [[| | | |items|]|]; simpl in Hx; try contradiction.
    apply filter_In in Hx. destruct Hx as [Hm Ht].
    apply in_map_iff in Hm. destruct Hm as (v & <- & _).
    split; [now apply truthy_true | apply trim_idempotent].
  - destruct value as [[| | | |items|]|]; simpl; try reflexivity.
    eapply Nat.le_trans; [apply filter_length_le|].
    now rewrite length_map.
Qed.

Lemma lastIndexOf_none (c : ascii) (s : string) :
  lastIndexOf c s = None -> includes_char c s = false.
Proof.
  induction s as [|x r IH]; simpl; [reflexivity|].
  destruct (lastIndexOf c r); [discriminate|].
  destruct (Ascii.eqb x c); [discriminate|]. intros _. now apply IH.
Qed.

(** [lastIndexOf] cuts a string at the last occurrence of the
    character. *)
Lemma lastIndexOf_split (c : ascii) (s : string) (i : nat) :
  lastIndexOf c s = Some i ->
  exists file,
    s = substring 0 i s ++ String c file /\
    includes_char c file = false /\
    String.length (substring 0 i s) = i.
Proof.
  revert i; induction s as [|x r IH]; simpl; intros i H; [discriminate|].
  destruct (lastIndexOf c r) as [j|] eqn:L.
  - inversion H; subst; clear H.
    destruct (IH j eq_refl) as (file & E & N & Len).
    exists file. simpl. rewrite Len. split; [now rewrite <- E|]. now split.
  - destruct (Ascii.eqb x c) eqn:X; [|discriminate].
    inversion H; subst; clear H. apply Ascii.eqb_eq in X; subst x.
    exists r. simpl. split; [reflexivity|]. split; [|reflexivity].
    now apply lastIndexOf_none.
Qed.

Lemma inferred_workspace_cases (configPath : option string) :
  let raw := match configPath with Some p => trim p | None => "" end in
  let w := inferWorkspaceDirFromConfigPath configPath in
  ends_with w "workspace" /\ w <> "" /\
  (w = "~/openclaw-workspace" \/
   exists dir file sep,
     raw = dir ++ String sep file /\ dir <> "" /\
     includes_char sep file = false /\
     sep = (if includes_char backslash raw then backslash else slash) /\
     w = dir ++ String sep "workspace").
Proof.
  cbv zeta. unfold inferWorkspaceDirFromConfigPath.
  set (raw := match configPath with Some p => trim p | None => "" end).
  assert (D : ends_with "~/openclaw-workspace" "workspace"
              /\ "~/openclaw-workspace" <> ""
              /\ ("~/openclaw-workspace" = "~/openclaw-workspace" \/
                  exists dir file sep,
                    raw = dir ++ String sep file /\ dir <> "" /\
                    includes_char sep file = false /\
                    sep = (if includes_char backslash raw
                           then backslash else slash) /\
                    "~/openclaw-workspace" = dir ++ String sep "workspace")).
  { split; [now exists "~/openclaw-"|]. split; [discriminate | now left]. }
  destruct (truthy raw); simpl; [|exact D].
  set (sep := if includes_char backslash raw then backslash else slash).
  destruct (lastIndexOf sep raw) as [[|idx]|] eqn:L; try exact D.
  destruct (lastIndexOf_split sep raw (S idx) L) as (file & E & N & Len).
  set (dir := substring 0 (S idx) raw) in *.
  assert (Hd : dir <> "") by (intros Z; rewrite Z in Len; discriminate).
  split; [|split].
  - exists (dir ++ String sep ""). now rewrite append_assoc.
  - destruct dir; [contradiction|discriminate].
  - right. exists dir, file, sep. repeat split; assumption.
Qed.

(** [inferWorkspaceDirFromConfigPath]: the result is never empty and always
    ends in [workspace].  It is either the default under the home
    directory, or the trimmed path with everything after its last
    separator replaced by [workspace]; the separator is the backslash as
    soon as the path contains one, and the part before it is not empty. *)
Theorem inferred_workspace_shape (configPath : option string) :
  let raw := match configPath with Some p => trim p | None => "" end in
  let w := inferWorkspaceDirFromConfigPath configPath in
  ends_with w "workspace" /\ w <> "" /\
  (w = "~/openclaw-workspace" \/
   exists dir file sep,
     raw = dir ++ String sep file /\ dir <> "" /\
     includes_char sep file = false /\
     sep = (if includes_char backslash raw then backslash else slash) /\
     w = dir ++ String sep "workspace").
Proof. apply inferred_workspace_cases. Qed.

Example inferred_workspace_posix :
  inferWorkspaceDirFromConfigPath (Some " /Users/u/.openclaw/openclaw.json ")
  = "/Users/u/.openclaw/workspace".
Proof. reflexivity. Qed.

Example inferred_workspace_windows :
  inferWorkspaceDirFromConfigPath
    (Some ("C:" ++ String backslash "oc/x" ++ String backslash "openclaw.json"))
  = "C:" ++ String backslash "oc/x" ++ String backslash "workspace".
Proof. reflexivity. Qed.

Example inferred_workspace_root_file :
  inferWorkspaceDirFromConfigPath (Some "/openclaw.json")
  = "~/openclaw-workspace" /\
  inferWorkspaceDirFromConfigPath (Some "openclaw.json")
  = "~/openclaw-workspace" /\
  inferWorkspaceDirFromConfigPath None = "~/openclaw-workspace".
Proof. repeat split. Qed.

Lemma is_digit_not_ws (c : ascii) : is_digit c = true -> is_ws c = false.
Proof.
  destruct c as [[] [] [] [] [] [] [] []]; intros H;
    try discriminate H; reflexivity.
Qed.

Lemma digits_no_ws (s : string) : all_chars is_digit s = true -> no_ws s = true.
Proof.
  induction s as [|c r IH]; simpl; [reflexivity|].
  intros H. apply andb_prop in H. destruct H as [Hc Hr].
  rewrite (is_digit_not_ws c Hc). simpl. now apply IH.
Qed.

Lemma digits_have_no_prefix (s : string) :
  digits_only s = true -> strip_channel_prefix s = s.
Proof.
  unfold digits_only. destruct s as [|c r]; simpl; [reflexivity|].
  intros H. apply andb_prop in H. destruct H as [Hc _].
  destruct c as [[] [] [] [] [] [] [] []];
    try discriminate Hc; reflexivity.
Qed.

(** The id added to the allow-list: normalising is idempotent; the result
    is either the input as typed or a string of digits; an input that is
    already all digits is kept. *)
Theorem normalize_user_id_idempotent (raw : string) :
  normalize_user_id (normalize_user_id raw) = normalize_user_id raw /\
  (normalize_user_id raw = raw \/
   digits_only (normalize_user_id raw) = true) /\
  (digits_only raw = true -> normalize_user_id raw = raw).
Proof.
  assert (G : forall d, digits_only d = true -> normalize_user_id d = d).
  { intros d Hd. unfold normalize_user_id.
    rewrite (digits_have_no_prefix d Hd).
    assert (T : trim d = d).
    { apply trim_no_ws, digits_no_ws. unfold digits_only in Hd.
      now apply andb_prop in Hd. }
    rewrite T, Hd. reflexivity. }
  split; [|split; [|apply G]].
  - unfold normalize_user_id at 2 3.
    destruct (digits_only (trim (strip_channel_prefix raw))) eqn:D.
    + now apply G.
    + unfold normalize_user_id. now rewrite D.
  - unfold normalize_user_id.
    destruct (digits_only (trim (strip_channel_prefix raw))) eqn:D;
      [now right | now left].
Qed.

End WelcomeHelperFacts.

Module OnboardingFacts.
Import JsString JsStringFacts JsStringMore TrimFacts Json JsonFacts.
Import Welcome WelcomeFacts WelcomeMore WelcomeHelperFacts.

Lemma obj_get_spread_other (k : string) (b a : object) :
  Forall (fun kv => fst kv <> k) b ->
  obj_get k (obj_spread a b) = obj_get k a.
Proof.
  unfold obj_spread. revert a.
  induction b as [|[k' v] b IH]; intros a H; simpl; [reflexivity|].
  inversion H as [|? ? Hk Hb]; subst. simpl in Hk.
  rewrite (IH _ Hb). apply obj_get_set_other. congruence.
Qed.

Lemma onboarding_patch_keys (state_port : Z) (state_token : string)
    (snap : ConfigSnapshot) (k : string) :
  k <> "gateway" -> k <> "agents" ->
  Forall (fun kv => fst kv <> k)
         (onboarding_patch state_port state_token snap).
Proof.
  intros Hg Ha. unfold onboarding_patch.
  destruct (needsGateway _ _ _ _); destruct (truthy _); simpl;
    repeat constructor; simpl; congruence.
Qed.

(** What [{...cfg, ...patch}] holds under [agents]. *)
Lemma seeded_agents (state_port : Z) (state_token : string)
    (snap : ConfigSnapshot) :
  let cfg := getObject (config snap) in
  let agents := getObject (obj_get "agents" cfg) in
  let defaults := getObject (obj_get "defaults" agents) in
  obj_get "agents"
    (obj_spread cfg (onboarding_patch state_port state_token snap)) =
  if truthy (trimmed_string defaults "workspace")
  then obj_get "agents" cfg
  else Some (agents_entry agents defaults
               (inferWorkspaceDirFromConfigPath (path snap))).
Proof.
  cbv zeta. unfold onboarding_patch.
  set (cfg := getObject (config snap)).
  set (gateway := getObject (obj_get "gateway" cfg)).
  set (gatewayAuth := getObject (obj_get "auth" gateway)).
  set (agents := getObject (obj_get "agents" cfg)).
  set (defaults := getObject (obj_get "defaults" agents)).
  destruct (needsGateway state_port state_token gateway gatewayAuth);
    destruct (truthy (trimmed_string defaults "workspace")) eqn:T;
    unfold obj_spread; simpl;
    repeat (rewrite obj_get_set_other by discriminate);
    rewrite ?obj_get_set_same; reflexivity.
Qed.

Lemma inferred_workspace_has_ink (configPath : option string) :
  truthy (trim (inferWorkspaceDirFromConfigPath configPath)) = true.
Proof.
  apply truthy_true.
  destruct (inferred_workspace_cases configPath) as ((a & E) & _).
  rewrite E. apply (trim_keeps_ink a "orkspace" "w"). reflexivity.
Qed.

(** Seeding and patching never drop a setting: in the seeded document
    every top-level key other than [gateway] and [agents] is as in the
    snapshot, and the computed [gateway], [gateway.auth], [agents] and
    [agents.defaults] entries keep every key they do not set. *)
Theorem onboarding_keeps_other_settings
    (state_port : Z) (state_token : string) (snap : ConfigSnapshot)
    (gateway gatewayAuth agents defaults : object) (workspace : string) :
  (forall k, k <> "gateway" -> k <> "agents" ->
     obj_get k (obj_spread (getObject (config snap))
                  (onboarding_patch state_port state_token snap))
     = obj_get k (getObject (config snap))) /\
  (forall k, k <> "mode" -> k <> "bind" -> k <> "port" -> k <> "auth" ->
     obj_get k (getObject (Some (gateway_entry state_port state_token
                                   gateway gatewayAuth)))
     = obj_get k gateway) /\
  (forall k, k <> "mode" -> k <> "token" ->
     obj_get k (getObject
                  (obj_get "auth"
                     (getObject (Some (gateway_entry state_port state_token
                                         gateway gatewayAuth)))))
     = obj_get k gatewayAuth) /\
  (forall k, k <> "defaults" ->
     obj_get k (getObject (Some (agents_entry agents defaults workspace)))
     = obj_get k agents) /\
  (forall k, k <> "workspace" ->
     obj_get k (getObject
                  (obj_get "defaults"
                     (getObject (Some (agents_entry agents defaults
                                         workspace)))))
     = obj_get k defaults).
Proof.
  split; [|split; [|split; [|split]]].
  - intros k Hg Ha. apply obj_get_spread_other.
    now apply onboarding_patch_keys.
  - intros k H1 H2 H3 H4. unfold gateway_entry, obj_spread. simpl.
    rewrite !obj_get_set_other by assumption. reflexivity.
  - intros k H1 H2. unfold gateway_entry, obj_spread. simpl.
    rewrite obj_get_set_same. simpl.
    rewrite !obj_get_set_other by assumption. reflexivity.
  - intros k H1. unfold agents_entry, obj_spread. simpl.
    rewrite !obj_get_set_other by assumption. reflexivity.
  - intros k H1. unfold agents_entry, obj_spread. simpl.
    rewrite obj_get_set_same. simpl.
    now rewrite obj_get_set_other by assumption.
Qed.

(** The onboarding defaults converge.  For a supervisor token without
    surrounding white space: once the computed entries have been laid over
    a configuration, computing them again yields nothing, so a further run
    of the ensure-defaults flow on that configuration only reads it. *)
Theorem onboarding_defaults_converge
    (state_port : Z) (state_token : string) (snap snap' : ConfigSnapshot) :
  trim state_token = state_token ->
  config snap' =
    Some (JObj (obj_spread (getObject (config snap))
                  (onboarding_patch state_port state_token snap))) ->
  onboarding_patch state_port state_token snap' = [] /\
  (forall gw,
     snapshot gw = snap' -> exists_ snap' <> Some false ->
     rejects gw ConfigGet = None ->
     ensureExtendedConfig gw state_port state_token []
     = ([ConfigGet], Returned tt)).
Proof.
  intros Ht Hc.
  assert (P : onboarding_patch state_port state_token snap' = []).
  { unfold onboarding_patch at 1. rewrite Hc. simpl getObject.
    rewrite seeded_gateway, seeded_agents.
    set (cfg := getObject (config snap)).
    set (g0 := getObject (obj_get "gateway" cfg)).
    set (a0 := getObject (obj_get "auth" g0)).
    set (ag0 := getObject (obj_get "agents" cfg)).
    set (d0 := getObject (obj_get "defaults" ag0)).
    assert (G : needsGateway state_port state_token
                  (getObject
                     (if needsGateway state_port state_token g0 a0
                      then Some (gateway_entry state_port state_token g0 a0)
                      else obj_get "gateway" cfg))
                  (getObject
                     (obj_get "auth"
                        (getObject
                           (if needsGateway state_port state_token g0 a0
                            then Some (gateway_entry state_port state_token
                                         g0 a0)
                            else obj_get "gateway" cfg)))) = false).
    { destruct (needsGateway state_port state_token g0 a0) eqn:N;
        [|exact N].
      unfold needsGateway, gateway_entry, obj_spread, trimmed_string,
        finite_number. simpl.
      repeat (first [ rewrite obj_get_set_same
                    | rewrite obj_get_set_other by discriminate ]; simpl).
      rewrite Ht, Z.eqb_refl, String.eqb_refl. reflexivity. }
    rewrite G.
    assert (W : truthy
                  (trimmed_string
                     (getObject
                        (obj_get "defaults"
                           (getObject
                              (if truthy (trimmed_string d0 "workspace")
                               then obj_get "agents" cfg
                               else Some (agents_entry ag0 d0
                                            (inferWorkspaceDirFromConfigPath
                                               (path snap)))))))
                     "workspace") = true).
    { destruct (truthy (trimmed_string d0 "workspace")) eqn:T; [exact T|].
      unfold agents_entry, obj_spread, trimmed_string. simpl.
      rewrite obj_get_set_same. simpl. rewrite obj_get_set_same.
      apply inferred_workspace_has_ink. }
    rewrite W. reflexivity. }
  split; [exact P|].
  intros gw Hs Hex Hget.
  unfold ensureExtendedConfig, loadConfig, bind, request, ret.
  simpl. rewrite Hget. simpl. rewrite Hs, P.
  destruct (exists_ snap') as [[|]|]; try reflexivity. now elim Hex.
Qed.

Lemma onboarding_defaults_converge_witness :
  trim "s3cret" = "s3cret" /\
  onboarding_patch 18789 "s3cret"
    {| path := None; exists_ := Some true; valid := None; hash := None;
       config :=
         Some (JObj (obj_spread
                       (getObject (config (telegram_snapshot [])))
                       (onboarding_patch 18789 "s3cret"
                          (telegram_snapshot [])))) |} = [].
Proof.
  split; [reflexivity|].
  exact (proj1 (onboarding_defaults_converge 18789 "s3cret"
                  (telegram_snapshot [])
                  {| path := None; exists_ := Some true; valid := None;
                     hash := None;
                     config :=
                       Some (JObj (obj_spread
                                     (getObject
                                        (config (telegram_snapshot [])))
                                     (onboarding_patch 18789 "s3cret"
                                        (telegram_snapshot [])))) |}
                  eq_refl eq_refl)).
Defined.

(** With a token that carries white space the comparison never succeeds
    and the flow patches the gateway section on every run. *)
Example padded_token_never_converges :
  let seeded :=
    obj_spread [] (onboarding_patch 18789 " s3cret "
                     {| path := None; exists_ := Some false; valid := None;
                        hash := None; config := None |}) in
  obj_is_empty
    (onboarding_patch 18789 " s3cret "
       {| path := None; exists_ := Some true; valid := None; hash := None;
          config := Some (JObj seeded) |}) = false.
Proof. reflexivity. Qed.

(** Every flow of the page writes at most once, never before it has read
    the configuration, and never when that read was refused;
    [config.set] is used by the ensure-defaults flow alone, and only for a
    configuration that does not exist. *)
Theorem flows_write_once_after_reading
    (gw : Gateway) (state_port : Z) (state_token : string)
    (f : PatchFlow) :
  let log := fst (run_flow gw state_port state_token f) in
  write_discipline log = true /\
  (length (filter is_write log) <= 1)%nat /\
  (rejects gw ConfigGet <> None -> filter is_write log = []) /\
  (forall raw, In (ConfigSet raw) log ->
     f = EnsureExtendedConfig /\ exists_ (snapshot gw) = Some false).
Proof.
  cbv zeta. split; [|split; [|split]].
  - destruct f; flow_paths gw; reflexivity.
  - destruct f; flow_paths gw; simpl; auto.
  - intros H. destruct f; flow_paths gw; simpl;
      try reflexivity; now elim H.
  - intros raw. destruct f; flow_paths gw; simpl; intros H;
      repeat (destruct H as [H|H]; try discriminate H);
      try contradiction;
      (split; [reflexivity | first [assumption | reflexivity | congruence]]).
Qed.






Example gog_exec_defaults_scenario :
  fst (ensureGogExecDefaults
         (agreeable
            {| path := None; exists_ := Some true; valid := None;
               hash := Some "h9";
               config :=
                 Some (JObj [("tools",
                              JObj [("exec",
                                     JObj [("host", JStr " sandbox ");
                                           ("safeBins",
                                            JArr [JStr "Git"; JStr "GOG";
                                                  JStr "git"])])])]) |})
         []) =
  [ConfigGet;
   ConfigPatch "h9"
     (JObj [("tools",
             JObj [("exec",
                    JObj [("host", JStr "sandbox");
                          ("security", JStr "allowlist");
                          ("ask", JStr "on-miss");
                          ("safeBins", JArr [JStr "git"; JStr "gog"])])])])
     "Welcome: ensure gog exec defaults"].
Proof. vm_compute. reflexivity. Qed.

End OnboardingFacts.

Module GogPanelFacts.
Import JsString JsStringFacts Welcome WelcomeMore.

(** [runGog] on a result: the result is handed on, the busy flag is
    cleared, an error is shown exactly when [ok] is false and is never the
    empty string, and the report always opens with the [ok:] line, so the
    "(no output)" fallback is never shown.  On a failure the error is
    shown, the report is cleared and the failure is thrown again. *)
Theorem runGog_report_shape (res : GogExecResult) (err : string) :
  let panel := fst (runGog (Returned res)) in
  snd (runGog (Returned res)) = Returned res /\
  gogBusy panel = false /\
  (gogError panel = None <-> gog_ok res = true) /\
  (forall e, gogError panel = Some e -> e <> "") /\
  (exists out,
     gogOutput panel = Some out /\
     starts_with out
       ("ok: " ++ (if gog_ok res then "true" else "false") ++ newline
        ++ newline ++ "code: ") /\
     out <> "(no output)") /\
  runGog (Threw err) =
    ({| gogError := Some err; gogBusy := false; gogOutput := None |},
     Threw err).
Proof.
  cbv zeta. split; [reflexivity|]. split; [reflexivity|].
  split; [|split; [|split; [|reflexivity]]].
  - simpl. destruct (gog_ok res); simpl; split; congruence.
  - simpl. intros e. destruct (gog_ok res); simpl; [discriminate|].
    destruct (truthy (trim (gog_stderr res))) eqn:T; intros H;
      inversion H; subst; [now apply truthy_true | discriminate].
  - simpl. unfold gog_report.
    destruct (gog_ok res); destruct (gog_code res);
      destruct (truthy (gog_stderr res));
      destruct (truthy (gog_stdout res)); simpl;
      (eexists; split; [reflexivity|]; split;
       [eexists; reflexivity | discriminate]).
Qed.

Example runGog_failed_command :
  fst (runGog (Returned {| gog_ok := false; gog_code := Some 1%Z;
                           gog_stdout := "";
                           gog_stderr := " no token " |})) =
  {| gogError := Some "no token"; gogBusy := false;
     gogOutput :=
       Some ("ok: false" ++ newline ++ newline ++ "code: 1" ++ newline
             ++ newline ++ "stderr:" ++ newline ++ "no token") |}.
Proof. reflexivity. Qed.

End GogPanelFacts.

Module ChatStreamFacts.
Import JsString Json Chat ChatMore ChatFacts.

(** Events of other kinds or other sessions never reach the store: each
    of them alone leaves any store as it is, and a whole stream has the
    same effect as the stream with those events taken out. *)
Theorem foreign_events_never_reach_store
    (Store : Type) (reducer : Store -> Action -> Store)
    (evts : list GatewayEvent) (s : Store) :
  deliver_all Store reducer s evts
  = deliver_all Store reducer s (filter relevant evts) /\
  Forall (fun e => relevant e = true \/ deliver Store reducer s e = s) evts.
Proof.
  assert (D : forall (t : Store) e,
            relevant e = false -> deliver Store reducer t e = t).
  { intros t e H. unfold relevant in H. unfold deliver, onEvent.
    destruct (event e =? "chat"); simpl in *; [|reflexivity].
    now rewrite H. }
  split.
  - unfold deliver_all. revert s.
    induction evts as [|e evts IH]; intros s; simpl; [reflexivity|].
    destruct (relevant e) eqn:R; simpl.
    + apply IH.
    + rewrite (D s e R). apply IH.
  - apply Forall_forall. intros e _.
    destruct (relevant e) eqn:R; [now left | right; now apply D].
Qed.

End ChatStreamFacts.

Module ExecSignalFacts.
Import JsString JsStringFacts Exec ExecFacts.

(** [runCommandWithTimeout] signals the child only from its timer.  For
    every sequence of events, the child has been sent SIGKILL (once)
    exactly when the timer was the first settling event; after a [close]
    or [error] came first nothing is ever sent, not even when the timer
    event follows.  What the buffers hold is the pipe data that arrived
    before the first settling event: later data is not recorded. *)
Theorem child_is_signalled_only_by_timer
    (bin : string) (timeoutMs : Z) (evs : list Event) :
  let s := run bin timeoutMs evs in
  match first_settling evs with
  | Some (pre, e) =>
      signals s = match e with TimerFired => [SIGKILL] | _ => [] end /\
      out_buf s = captured_stdout pre /\ err_buf s = captured_stderr pre /\
      timer_armed s = false /\ listening s = false
  | None =>
      signals s = [] /\
      out_buf s = captured_stdout evs /\ err_buf s = captured_stderr evs /\
      timer_armed s = true /\ listening s = true
  end.
Proof.
  cbv zeta. destruct (first_settling evs) as [[pre e]|] eqn:F.
  - destruct (first_settling_some _ _ _ F) as (HF & He & post & ->).
    rewrite (run_settled bin timeoutMs pre post e HF He). simpl.
    repeat split.
  - rewrite (run_data_only bin timeoutMs evs (first_settling_none evs F)).
    simpl. repeat split.
Qed.

Example close_then_timer_sends_nothing :
  signals (run "remindctl" 20000 [Close (Some 0%Z); TimerFired]) = [] /\
  out_buf (run "remindctl" 20000
             [StdoutData "a"; Close (Some 0%Z); StdoutData "b"]) = "a".
Proof. split; reflexivity. Qed.

End ExecSignalFacts.

Module WindowFacts.
Import JsString JsStringFacts Supervisor SupervisorMore SupervisorFacts.

Lemma not_destroyed_when_fresh (l : list Window) (n : nat) :
  Forall (fun w => (w < n)%nat) l -> existsb (Nat.eqb n) l = false.
Proof.
  induction l as [|x l IH]; simpl; intros H; [reflexivity|].
  inversion H as [|? ? Hx Hl]; subst. rewrite (IH Hl), orb_false_r.
  apply Nat.eqb_neq. intros E. subst. exact (Nat.lt_irrefl _ Hx).
Qed.

Lemma Forall_lt_S {A} (f : A -> nat) (l : list A) (n : nat) :
  Forall (fun x => (f x < n)%nat) l -> Forall (fun x => (f x < S n)%nat) l.
Proof.
  intros H. eapply Forall_impl; [|exact H]. intros a Ha.
  now apply Nat.lt_lt_succ_r.
Qed.

Lemma tidy_boot : tidy boot.
Proof.
  unfold tidy; simpl. split; [discriminate|]. split; constructor.
Qed.

Lemma tidy_broadcast (win : option Window) (st : GatewayState) (m : Main) :
  tidy m ->
  (forall w, win = Some w -> (w < created m)%nat) ->
  tidy (broadcastGatewayState win st m).
Proof.
  intros (Hm & Hd & Hs) Hw. unfold tidy; simpl.
  split; [exact Hm|]. split; [exact Hd|].
  destruct win as [w|]; [|exact Hs].
  destruct (isDestroyed m w); [exact Hs|].
  apply Forall_app. split; [exact Hs|].
  constructor; [|constructor]. simpl. now apply Hw.
Qed.

(** [ensureMainWindow] keeps the books in order, hands back a window that
    exists, and creates at most one window. *)
Lemma tidy_ensureMainWindow (m : Main) :
  tidy m ->
  tidy (snd (ensureMainWindow m)) /\
  (forall w, fst (ensureMainWindow m) = Some w ->
     (w < created (snd (ensureMainWindow m)))%nat) /\
  (created m <= created (snd (ensureMainWindow m)))%nat.
Proof.
  intros T. pose proof T as (Hm & Hd & Hs). unfold ensureMainWindow.
  destruct (mainWindow m) as [cur|] eqn:Mw.
  - destruct (Hm cur eq_refl) as [Hlt Hal]. rewrite Hal. simpl.
    split; [exact T|]. split; [|constructor].
    intros w E. inversion E; subst. exact Hlt.
  - destruct (preloadPathForWindow m) as [pp|];
      [|simpl; split; [exact T|]; split; [discriminate|constructor]].
    destruct (rendererIndexForWindow m) as [ri|];
      [|simpl; split; [exact T|]; split; [discriminate|constructor]].
    unfold adopt_new_window.
    set (m1 := {| mainWindow := Some (created m);
                  preloadPathForWindow := preloadPathForWindow m;
                  rendererIndexForWindow := rendererIndexForWindow m;
                  gateway := gateway m; logsDirForUi := logsDirForUi m;
                  gatewayState := gatewayState m;
                  created := S (created m); destroyed := destroyed m;
                  broadcasts := broadcasts m; sent := sent m |}).
    assert (T1 : tidy m1).
    { unfold tidy, m1; simpl. split; [|split].
      - intros w E. inversion E; subst. split; [apply Nat.lt_succ_diag_r|].
        unfold isDestroyed; simpl. now apply not_destroyed_when_fresh.
      - now apply (Forall_lt_S (fun w => w)).
      - now apply (Forall_lt_S (fun p : Window * GatewayState => fst p)). }
    simpl. destruct (gatewayState m) as [st|]; simpl.
    + split; [|split].
      * apply tidy_broadcast; [exact T1|].
        intros w E. inversion E; subst. apply Nat.lt_succ_diag_r.
      * intros w E. inversion E; subst. apply Nat.lt_succ_diag_r.
      * apply Nat.le_succ_diag_r.
    + split; [exact T1|]. split.
      * intros w E. inversion E; subst. apply Nat.lt_succ_diag_r.
      * apply Nat.le_succ_diag_r.
Qed.

Lemma tidy_window_closed (w : Window) (m : Main) :
  tidy m -> tidy (window_closed w m) /\ created (window_closed w m) = created m.
Proof.
  intros T. pose proof T as (Hm & Hd & Hs). unfold window_closed.
  destruct ((w <? created m)%nat && negb (isDestroyed m w)) eqn:G;
    [|split; [exact T | reflexivity]].
  apply andb_prop in G. destruct G as [Glt _]. apply Nat.ltb_lt in Glt.
  split; [|reflexivity]. unfold tidy; simpl. split; [|split].
  - intros cur E. destruct (mainWindow m) as [c|] eqn:Mw; [|discriminate].
    destruct (Nat.eqb c w) eqn:Q; [discriminate|].
    inversion E; subst. destruct (Hm cur eq_refl) as [Hlt Hal].
    split; [exact Hlt|]. unfold isDestroyed in *; simpl.
    now rewrite Q, Hal.
  - constructor; assumption.
  - exact Hs.
Qed.

Lemma tidy_user_step (m : Main) (e : UserEvent) :
  tidy m ->
  tidy (user_step m e) /\ (created m <= created (user_step m e))%nat.
Proof.
  intros T. destruct e as [w|]; simpl.
  - destruct (tidy_window_closed w m T) as [T' E]. split; [exact T'|].
    rewrite E. constructor.
  - destruct (tidy_ensureMainWindow m T) as (T' & _ & L).
    split; assumption.
Qed.

Lemma tidy_user_steps (es : list UserEvent) (m : Main) :
  tidy m ->
  tidy (user_steps es m) /\ (created m <= created (user_steps es m))%nat.
Proof.
  revert m; induction es as [|e es IH]; intros m T; simpl.
  - split; [exact T | constructor].
  - destruct (tidy_user_step m e T) as [T1 L1].
    destruct (IH _ T1) as [T2 L2]. unfold user_steps in *. simpl.
    split; [exact T2|]. eapply Nat.le_trans; eassumption.
Qed.

Lemma ensureMainWindow_reuse (m : Main) (w : Window) :
  mainWindow m = Some w -> isDestroyed m w = false ->
  ensureMainWindow m = (Some w, m).
Proof. intros Mw Al. unfold ensureMainWindow. now rewrite Mw, Al. Qed.

Lemma ensureMainWindow_new (m : Main) (pp ri : string) :
  mainWindow m = None ->
  preloadPathForWindow m = Some pp -> rendererIndexForWindow m = Some ri ->
  ensureMainWindow m =
  (Some (created m),
   match gatewayState m with
   | Some st =>
       broadcastGatewayState (Some (created m)) st (snd (adopt_new_window m))
   | None => snd (adopt_new_window m)
   end).
Proof.
  intros Mw Pp Ri. unfold ensureMainWindow. rewrite Mw, Pp, Ri.
  reflexivity.
Qed.

(** [ensureMainWindow] is idempotent: a call that follows a completed
    call, with nothing in between, returns the same window, creates no
    window and sends nothing, because the first has left a live
    [mainWindow] (or, without the paths, had nothing to do). *)
Theorem ensureMainWindow_is_idempotent (m : Main) :
  tidy m ->
  ensureMainWindow (snd (ensureMainWindow m))
  = (fst (ensureMainWindow m), snd (ensureMainWindow m)).
Proof.
  intros T. pose proof T as (Hm & Hd & Hs).
  destruct (mainWindow m) as [cur|] eqn:Mw.
  - destruct (Hm cur eq_refl) as [_ Hal].
    rewrite (ensureMainWindow_reuse m cur Mw Hal). cbn [fst snd].
    now apply ensureMainWindow_reuse.
  - destruct (preloadPathForWindow m) as [pp|] eqn:Pp.
    2:{ unfold ensureMainWindow. rewrite Mw, Pp. cbn [fst snd].
        now rewrite Mw, Pp. }
    destruct (rendererIndexForWindow m) as [ri|] eqn:Ri.
    2:{ unfold ensureMainWindow. rewrite Mw, Pp, Ri. cbn [fst snd].
        now rewrite Mw, Pp, Ri. }
    assert (F : existsb (Nat.eqb (created m)) (destroyed m) = false)
      by now apply not_destroyed_when_fresh.
    rewrite (ensureMainWindow_new m pp ri Mw Pp Ri). cbn [fst snd].
    apply ensureMainWindow_reuse;
      destruct (gatewayState m); first [reflexivity | exact F].
Qed.

Lemma ensureMainWindow_is_idempotent_witness :
  let m := window_closed 0 (snd (startup_begin sample_startup boot)) in
  tidy m /\
  mainWindow m = None /\
  fst (ensureMainWindow m) = Some 1%nat /\
  created (snd (ensureMainWindow m)) = 2%nat /\
  ensureMainWindow (snd (ensureMainWindow m))
  = (Some 1%nat, snd (ensureMainWindow m)).
Proof.
  cbv zeta.
  assert (T : tidy (window_closed 0 (snd (startup_begin sample_startup boot)))).
  { unfold tidy; simpl. split; [discriminate|].
    split; repeat constructor. }
  split; [exact T|]. split; [reflexivity|]. split; [reflexivity|].
  split; [reflexivity|].
  exact (ensureMainWindow_is_idempotent _ T).
Defined.

Lemma inbox_after_send (w v : Window) (st : GatewayState) (m m' : Main) :
  sent m' = (sent m ++ [(v, st)])%list ->
  inbox w m' = (inbox w m ++ if Nat.eqb v w then [st] else [])%list.
Proof.
  unfold inbox. intros ->. rewrite filter_app, map_app. simpl.
  destruct (Nat.eqb v w); reflexivity.
Qed.

(** A window that [ensureMainWindow] has to create is new, becomes
    [mainWindow], and has received exactly one message when the call
    returns if a gateway state is known (that state), and none
    otherwise. *)
Theorem new_window_starts_with_current_state
    (m : Main) (pp ri : string) :
  tidy m -> mainWindow m = None ->
  preloadPathForWindow m = Some pp -> rendererIndexForWindow m = Some ri ->
  let w := created m in
  let m' := snd (ensureMainWindow m) in
  fst (ensureMainWindow m) = Some w /\
  mainWindow m' = Some w /\ created m' = S (created m) /\
  inbox w m = [] /\
  inbox w m' = match gatewayState m with Some st => [st] | None => [] end /\
  (forall v, v <> w -> inbox v m' = inbox v m).
Proof.
  intros (Hm & Hd & Hs) Mw Pp Ri. cbv zeta.
  assert (I0 : inbox (created m) m = []).
  { unfold inbox. clear -Hs. induction (sent m) as [|[v st] l IH];
      [reflexivity|].
    inversion Hs as [|? ? Hv Hl]; subst. simpl in *.
    destruct (Nat.eqb v (created m)) eqn:Q.
    - apply Nat.eqb_eq in Q. subst. now elim (Nat.lt_irrefl _ Hv).
    - now apply IH. }
  assert (F : isDestroyed (snd (adopt_new_window m)) (created m) = false)
    by (unfold isDestroyed; simpl; now apply not_destroyed_when_fresh).
  rewrite (ensureMainWindow_new m pp ri Mw Pp Ri). cbn [fst snd].
  split; [reflexivity|].
  destruct (gatewayState m) as [st|].
  - split; [reflexivity|]. split; [reflexivity|]. split; [exact I0|].
    assert (S1 : sent (broadcastGatewayState (Some (created m)) st
                         (snd (adopt_new_window m)))
                 = (sent m ++ [(created m, st)])%list).
    { change (sent (broadcastGatewayState (Some (created m)) st
                      (snd (adopt_new_window m))))
        with (if isDestroyed (snd (adopt_new_window m)) (created m)
              then sent m else (sent m ++ [(created m, st)])%list).
      now rewrite F. }
    split.
    + rewrite (inbox_after_send _ _ _ m _ S1), I0, Nat.eqb_refl.
      reflexivity.
    + intros v Hv. rewrite (inbox_after_send _ _ _ m _ S1).
      apply Nat.eqb_neq in Hv. rewrite Nat.eqb_sym, Hv. apply app_nil_r.
  - split; [reflexivity|]. split; [reflexivity|]. split; [exact I0|].
    split; [exact I0 | reflexivity].
Qed.

Lemma new_window_starts_with_current_state_witness :
  let m := window_closed 0 (snd (startup_begin sample_startup boot)) in
  tidy m /\ mainWindow m = None /\
  inbox 1 (snd (ensureMainWindow m))
  = [Starting (port sample_startup) (logsDir sample_startup)
       (token sample_startup)].
Proof.
  cbv zeta.
  assert (T : tidy (window_closed 0 (snd (startup_begin sample_startup boot)))).
  { unfold tidy; simpl. split; [discriminate|].
    split; repeat constructor. }
  split; [exact T|]. split; [reflexivity|].
  exact (proj1 (proj2 (proj2 (proj2 (proj2
           (new_window_starts_with_current_state _ "preload.js" "index.html"
              T eq_refl eq_refl eq_refl)))))).
Defined.

(** [stopGatewayChild] forgets the child before it does anything else: it
    leaves no handle behind, so calling it again finds no child and sends
    nothing.  On the child it worked on it made one or two [kill] calls,
    SIGTERM first, and it touches nothing else of the main process. *)
Theorem stopGatewayChild_forgets_child
    (m : Main) (exits again : bool) :
  let m1 := fst (stopGatewayChild exits m) in
  gateway m1 = None /\
  stopGatewayChild again m1 = (m1, None) /\
  mainWindow m1 = mainWindow m /\ gatewayState m1 = gatewayState m /\
  sent m1 = sent m /\
  match gateway m, snd (stopGatewayChild exits m) with
  | Some c, Some c' =>
      kill_calls c' = (kill_calls c ++ [SIGTERM])%list \/
      kill_calls c' = (kill_calls c ++ [SIGTERM; SIGKILL])%list
  | None, None => True
  | _, _ => False
  end.
Proof.
  cbv zeta. unfold stopGatewayChild.
  destruct (gateway m) as [c|]; simpl; repeat split.
  unfold child_kill, grace_period.
  destruct (running c); simpl.
  - now left.
  - destruct (killed c); simpl; [now left|right].
    now rewrite <- app_assoc.
Qed.

End WindowFacts.


(* ================================================================== *)
(** ** The update splash *)
(* ================================================================== *)

Module SplashFacts.
Import JsString JsStringMore TrimFacts Splash.

Lemma all_digits_of_uint (d : Decimal.uint) :
  all_digits (NilEmpty.string_of_uint d).
Proof. induction d; simpl; auto. Qed.

Lemma digit_prefix_all (s : string) : all_digits s -> digit_prefix s = s.
Proof.
  induction s as [|c r IH]; simpl; [reflexivity|].
  intros [Hc Hr]. rewrite Hc, (IH Hr). reflexivity.
Qed.

Lemma digit_is_plain (c : ascii) :
  is_digit c = true ->
  is_ws c = false /\ Ascii.eqb c minus = false /\ Ascii.eqb c plus = false.
Proof.
  destruct c as [[] [] [] [] [] [] [] []]; vm_compute; intros H;
    first [discriminate H | repeat split].
Qed.

Lemma string_of_pos_shape (p : positive) :
  exists c r, NilEmpty.string_of_uint (Pos.to_uint p) = String c r.
Proof.
  pose proof (DecimalPos.Unsigned.to_uint_nonnil p) as N.
  destruct (Pos.to_uint p); simpl; eauto. contradiction.
Qed.

Lemma show_Z_pos (p : positive) :
  show_Z (Z.pos p) = NilEmpty.string_of_uint (Pos.to_uint p).
Proof.
  unfold show_Z. simpl.
  pose proof (DecimalPos.Unsigned.to_uint_nonnil p) as N.
  destruct (Pos.to_uint p); simpl; try reflexivity. contradiction.
Qed.

(** A positive integer printed in decimal is read back by [parseInt]. *)
Lemma parseInt10_show_Z (z : Z) : (0 < z)%Z -> parseInt10 (show_Z z) = Some z.
Proof.
  destruct z as [|p|p]; try (intros H; discriminate H). intros _.
  rewrite show_Z_pos.
  pose proof (all_digits_of_uint (Pos.to_uint p)) as D.
  pose proof (DecimalPos.Unsigned.to_uint_nonnil p) as N.
  pose proof (NilZero.usu (Pos.to_uint p) N) as U.
  assert (NilZero.string_of_uint (Pos.to_uint p)
          = NilEmpty.string_of_uint (Pos.to_uint p)) as E
    by (destruct (Pos.to_uint p); simpl; try reflexivity; contradiction).
  rewrite E in U. clear E.
  destruct (string_of_pos_shape p) as (c & r & S).
  rewrite S in *. destruct D as [Dc Dr].
  destruct (digit_is_plain c Dc) as (W & M & P).
  unfold parseInt10. rewrite (trimStart_head c r W), M, P.
  cbn [fst snd].
  rewrite (digit_prefix_all (String c r)) by (split; assumption).
  rewrite U. f_equal.
  unfold Z.of_uint. rewrite DecimalPos.Unsigned.of_to. reflexivity.
Qed.

Lemma show_Z_no_ws (z : Z) : (0 < z)%Z -> no_ws (show_Z z) = true.
Proof.
  destruct z as [|p|p]; try (intros H; discriminate H). intros _.
  rewrite show_Z_pos.
  pose proof (all_digits_of_uint (Pos.to_uint p)) as D.
  induction (NilEmpty.string_of_uint (Pos.to_uint p)) as [|c r IH];
    simpl; [reflexivity|].
  destruct D as [Dc Dr]. destruct (digit_is_plain c Dc) as (W & _).
  rewrite W, (IH Dr). reflexivity.
Qed.

Lemma oldPid_of_splash_argv (pid : Z) (path : string) :
  (0 < pid)%Z -> oldPid (splash_argv pid path) = pid.
Proof.
  intros H. unfold oldPid, splash_argv. simpl.
  now rewrite (parseInt10_show_Z pid H).
Qed.

Section Loop.

Variable argv : list string.
Variable snapshots : nat -> list RunningApp.

Lemma poll_step_dead (elapsed : nat) :
  (if negb (old_gone argv snapshots elapsed)
   then negb (stillRunning argv (snapshots (elapsed + 1)%nat))
   else old_gone argv snapshots elapsed)
  = old_gone argv snapshots (elapsed + 1).
Proof.
  rewrite Nat.add_1_r. simpl.
  destruct (old_gone argv snapshots elapsed); reflexivity.
Qed.

Lemma poll_loop_ends (fuel : nat) :
  forall elapsed,
    (elapsed <= MAX_SECONDS)%nat ->
    (MAX_SECONDS - elapsed < fuel)%nat ->
    (forall j, (1 <= j <= elapsed)%nat -> ready argv snapshots j = false) ->
    exists e,
      poll_loop argv snapshots fuel elapsed (old_gone argv snapshots elapsed)
        = Some e /\ ends_well argv snapshots elapsed e.
Proof.
  induction fuel as [|fuel IH]; intros elapsed Hle Hfuel Hquiet; [lia|].
  cbn [poll_loop].
  destruct (elapsed <? MAX_SECONDS)%nat eqn:L.
  - apply Nat.ltb_lt in L.
    rewrite poll_step_dead.
    destruct (old_gone argv snapshots (elapsed + 1)
              && new_instance_in argv (snapshots (elapsed + 1)%nat)) eqn:R.
    + eexists. split; [reflexivity|]. simpl.
      split; [lia|]. split; [exact R|].
      intros j Hj. apply Hquiet. lia.
    + destruct (IH (elapsed + 1)%nat) as (e & He & Hw); try lia.
      * intros j Hj.
        destruct (Nat.eq_dec j (elapsed + 1)) as [->|N];
          [exact R | apply Hquiet; lia].
      * exists e. split; [exact He|].
        destruct e as [k|k]; simpl in *.
        -- destruct Hw as (Hk & Hr & Hb). repeat split; try lia; assumption.
        -- exact Hw.
  - apply Nat.ltb_ge in L.
    eexists. split; [reflexivity|]. simpl.
    split; [lia|]. intros j Hj. apply Hquiet. lia.
Qed.

Lemma old_gone_needs_absence (k : nat) :
  old_gone argv snapshots k = true ->
  oldPid argv = 0%Z \/
  exists j, (1 <= j <= k)%nat /\ stillRunning argv (snapshots j) = false.
Proof.
  induction k as [|k IH]; simpl; intros H.
  - left. now apply Z.eqb_eq.
  - apply orb_prop in H. destruct H as [H|H].
    + destruct (IH H) as [Z|(j & Hj & Hs)]; [now left|].
      right. exists j. split; [lia | exact Hs].
    + right. exists (S k). split; [lia|]. now apply negb_true_iff.
Qed.

End Loop.

(** The script always ends within [MAX_SECONDS] polls.  It ends early at
    the first poll that finds the old process gone (then or before) and an
    application with the bundle id running; otherwise it runs to the
    timeout.  Either way the pid file is written first and removed last,
    unless no path was given, in which case no file is touched. *)
Theorem splash_script_outcome (argv : list string) (own_pid : Z)
    (snapshots : nat -> list RunningApp) (extra : nat) :
  exists e,
    run argv own_pid snapshots (S MAX_SECONDS + extra)
      = Some (e,
              if truthy (sentinelPath argv)
              then [WriteFile (sentinelPath argv) (show_Z own_pid);
                    RemoveFile (sentinelPath argv)]
              else []) /\
    ends_well argv snapshots 0 e.
Proof.
  destruct (poll_loop_ends argv snapshots (S MAX_SECONDS + extra) 0)
    as (e & He & Hw).
  - unfold MAX_SECONDS. lia.
  - unfold MAX_SECONDS. lia.
  - intros j Hj. lia.
  - exists e. split; [|exact Hw].
    unfold run. cbn [old_gone] in He. rewrite He.
    unfold cleanup. destruct (truthy (sentinelPath argv)); reflexivity.
Qed.

(** Started by [showUpdateSplash] from a process with a positive pid, the
    script reports a new instance only after some poll in which no running
    application had that pid: it does not mistake the instance that is
    quitting for the new one. *)
Theorem splash_waits_for_old_instance (pid own_pid : Z) (path : string)
    (snapshots : nat -> list RunningApp) (fuel k : nat)
    (acts : list FileAction) :
  (0 < pid)%Z ->
  run (splash_argv pid path) own_pid snapshots fuel
    = Some (NewInstanceSeen k, acts) ->
  exists j, (1 <= j <= k)%nat /\
    forall a, In a (snapshots j) -> processIdentifier a <> pid.
Proof.
  intros Hpid Hrun.
  unfold run in Hrun.
  destruct (poll_loop (splash_argv pid path) snapshots fuel 0
              (oldPid (splash_argv pid path) =? 0)%Z) as [e|] eqn:P;
    [|discriminate Hrun].
  injection Hrun as -> _.
  assert (forall fuel elapsed,
            poll_loop (splash_argv pid path) snapshots fuel elapsed
              (old_gone (splash_argv pid path) snapshots elapsed)
              = Some (NewInstanceSeen k) ->
            old_gone (splash_argv pid path) snapshots k = true) as G.
  { clear. induction fuel as [|fuel IH]; intros elapsed H;
      [discriminate H|].
    cbn [poll_loop] in H.
    destruct (elapsed <? MAX_SECONDS)%nat; [|discriminate H].
    rewrite poll_step_dead in H.
    destruct (old_gone (splash_argv pid path) snapshots (elapsed + 1)
              && new_instance_in (splash_argv pid path)
                   (snapshots (elapsed + 1)%nat)) eqn:R.
    - injection H as <-. now apply andb_prop in R.
    - exact (IH _ H). }
  specialize (G fuel 0%nat P).
  destruct (old_gone_needs_absence _ _ _ G) as [Z|(j & Hj & Hs)].
  - rewrite (oldPid_of_splash_argv pid path Hpid) in Z. lia.
  - exists j. split; [exact Hj|].
    intros a Ha E. unfold stillRunning in Hs.
    rewrite (oldPid_of_splash_argv pid path Hpid) in Hs.
    assert (existsb (fun a => (processIdentifier a =? pid)%Z) (snapshots j)
            = true) as T
      by (apply existsb_exists; exists a; split;
          [exact Ha | now apply Z.eqb_eq]).
    congruence.
Qed.

Lemma splash_waits_for_old_instance_witness :
  exists j, (1 <= j <= 2)%nat /\
    forall a, In a (two_polls j) -> processIdentifier a <> 4242%Z.
Proof.
  apply (splash_waits_for_old_instance 4242 77 "/tmp/update-splash.pid"
           two_polls 5 2
           [WriteFile "/tmp/update-splash.pid" "77";
            RemoveFile "/tmp/update-splash.pid"]).
  - reflexivity.
  - vm_compute. reflexivity.
Defined.

(** [killUpdateSplash] sends at most one signal; it is SIGTERM, to the
    positive pid read from the pid file, and only on macOS.  It never
    creates or rewrites the pid file: the file is left as found or
    removed. *)
Theorem killUpdateSplash_is_careful (env : KillEnv) :
  let done := killUpdateSplash env in
  (length (kill_calls done) <= 1)%nat /\
  Forall (fun call =>
            snd call = SIGTERM /\ (0 < fst call)%Z /\
            platform env = "darwin" /\
            exists content,
              sentinel env = Some content /\
              parseInt10 (trim content) = Some (fst call))
         (kill_calls done) /\
  (sentinel_after done = sentinel env \/ sentinel_after done = None).
Proof.
  unfold killUpdateSplash.
  destruct (platform env =? "darwin") eqn:D; cbn [negb];
    [|simpl; auto].
  apply String.eqb_eq in D.
  destruct (sentinel env) as [content|] eqn:S; [|simpl; auto].
  destruct (read_fails env); [simpl; auto|].
  cbn [kill_calls sentinel_after].
  split; [|split].
  - destruct (parseInt10 (trim content)) as [p|]; [|simpl; lia].
    destruct (0 <? p)%Z; simpl; lia.
  - destruct (parseInt10 (trim content)) as [p|] eqn:P; [|constructor].
    destruct (0 <? p)%Z eqn:Pos; [|constructor].
    constructor; [|constructor]. cbn [fst snd].
    repeat split; [now apply Z.ltb_lt | exact D |].
    exists content. split; [reflexivity | exact P].
  - destruct (unlink_fails env); auto.
Qed.

(** The pid file round trip: when [killUpdateSplash] reads the file the
    script wrote, it signals exactly the script's process, and removes the
    file if the unlink succeeds. *)
Theorem splash_pid_round_trip (argv : list string) (own_pid : Z)
    (snapshots : nat -> list RunningApp) (fuel : nat)
    (e : SplashExit) (acts : list FileAction)
    (path content : string) (env : KillEnv) :
  (0 < own_pid)%Z ->
  run argv own_pid snapshots fuel = Some (e, acts) ->
  In (WriteFile path content) acts ->
  platform env = "darwin" ->
  sentinel env = Some content ->
  read_fails env = false ->
  killUpdateSplash env
  = {| kill_calls := [(own_pid, SIGTERM)];
       sentinel_after := if unlink_fails env then Some content else None |}.
Proof.
  intros Hpid Hrun Hin Hplat Hsent Hread.
  assert (content = show_Z own_pid) as ->.
  { unfold run in Hrun.
    destruct (poll_loop argv snapshots fuel 0 (oldPid argv =? 0)%Z);
      [|discriminate Hrun].
    injection Hrun as _ <-. unfold cleanup in Hin.
    destruct (truthy (sentinelPath argv)); simpl in Hin.
    - destruct Hin as [H|[H|[]]]; [now injection H | discriminate H].
    - contradiction. }
  unfold killUpdateSplash.
  rewrite Hplat, Hsent, Hread, String.eqb_refl. cbn [negb].
  rewrite (trim_no_ws _ (show_Z_no_ws own_pid Hpid)).
  rewrite (parseInt10_show_Z own_pid Hpid).
  apply Z.ltb_lt in Hpid. rewrite Hpid. reflexivity.
Qed.

Lemma splash_pid_round_trip_witness :
  killUpdateSplash (mkKillEnv "darwin" (Some "77") false true false)
  = {| kill_calls := [(77%Z, SIGTERM)]; sentinel_after := None |}.
Proof.
  apply (splash_pid_round_trip
           (splash_argv 4242 "/tmp/update-splash.pid") 77 two_polls 5
           (NewInstanceSeen 2)
           [WriteFile "/tmp/update-splash.pid" "77";
            RemoveFile "/tmp/update-splash.pid"]
           "/tmp/update-splash.pid" "77"
           (mkKillEnv "darwin" (Some "77") false true false)).
  - reflexivity.
  - vm_compute. reflexivity.
  - simpl. left. reflexivity.
  - reflexivity.
  - reflexivity.
  - reflexivity.
Defined.

End SplashFacts.


(* ================================================================== *)
(** ** The onboarding pages *)
(* ================================================================== *)

Module PagesFacts.
Import JsString TrimFacts Json Welcome WelcomeMore WelcomeFacts Pages.

Lemma tier_ids (p : string) (tiers : ModelTier -> string) :
  MODEL_TIERS p = Some tiers ->
  (tiers ultra = "claude-opus-4-5" /\ tiers pro = "claude-sonnet-4-5" /\
   tiers fast = "claude-haiku-4-5") \/
  (tiers ultra = "gemini-2.5-pro" /\ tiers pro = "gemini-2.5-flash" /\
   tiers fast = "gemini-2.0-flash-lite") \/
  (tiers ultra = "gpt-5.2-pro" /\ tiers pro = "gpt-5.2" /\
   tiers fast = "gpt-5-mini") \/
  (tiers ultra = "auto" /\ tiers pro = "" /\ tiers fast = "").
Proof.
  unfold MODEL_TIERS. intros H.
  destruct (p =? "anthropic");
    [injection H as <-; left; repeat split|].
  destruct (p =? "google");
    [injection H as <-; right; left; repeat split|].
  destruct (p =? "openai");
    [injection H as <-; right; right; left; repeat split|].
  destruct (p =? "openrouter");
    [injection H as <-; right; right; right; repeat split|].
  discriminate H.
Qed.

Lemma first_match (tiers : ModelTier -> string) (m : string) :
  find (fun tier => truthy (tiers tier) && (m =? tiers tier)) TIER_ORDER
  = if truthy (tiers ultra) && (m =? tiers ultra) then Some ultra
    else if truthy (tiers pro) && (m =? tiers pro) then Some pro
    else if truthy (tiers fast) && (m =? tiers fast) then Some fast
    else None.
Proof. reflexivity. Qed.

(** A model gets a badge exactly when its id is the non-empty id listed
    for that tier under its provider; in particular a provider's empty
    slots match nothing and no id wears two badges. *)
Theorem getModelTier_is_exact (p m : string) (t : ModelTier) :
  getModelTier p m = Some t <->
  exists tiers, MODEL_TIERS p = Some tiers /\ tiers t = m /\ m <> "".
Proof.
  unfold getModelTier. split.
  - destruct (MODEL_TIERS p) as [tiers|] eqn:T; [|discriminate].
    intros H. apply find_some in H. destruct H as [_ H].
    apply andb_prop in H. destruct H as [Ht He].
    apply String.eqb_eq in He. exists tiers.
    split; [reflexivity|]. split; [now symmetry|].
    intros ->. rewrite <- He in Ht. discriminate Ht.
  - intros (tiers & T & E & N). rewrite T.
    change (find (fun tier => truthy (tiers tier) && (m =? tiers tier))
              TIER_ORDER = Some t).
    rewrite first_match.
    destruct (tier_ids p tiers T)
      as [(U & P & F)|[(U & P & F)|[(U & P & F)|(U & P & F)]]];
      destruct t; subst m; rewrite ?U, ?P, ?F; rewrite ?U, ?P, ?F in N;
      first [reflexivity | contradiction N; reflexivity].
Qed.

Section Sorting.

Variable localeCompare : string -> string -> Z.

Lemma priority_range (t : ModelTier) : (0 <= TIER_PRIORITY t <= 2)%Z.
Proof. destruct t; simpl; lia. Qed.

Lemma insert_in (x y : ModelEntry) (l : list ModelEntry) :
  In y (insert localeCompare x l) <-> y = x \/ In y l.
Proof.
  induction l as [|z l IH]; simpl.
  - intuition.
  - destruct (0 <? compareModels localeCompare x z)%Z; simpl;
      rewrite ?IH; intuition.
Qed.

Lemma after_positive (x y : ModelEntry) :
  (0 <? compareModels localeCompare x y)%Z = true -> badge_order y x.
Proof.
  unfold compareModels, badge_order. intros H. apply Z.ltb_lt in H.
  destruct (tier_of x) as [tx|], (tier_of y) as [ty|]; try exact I; lia.
Qed.

Lemma before_nonpositive (x y : ModelEntry) :
  (0 <? compareModels localeCompare x y)%Z = false -> badge_order x y.
Proof.
  unfold compareModels, badge_order. intros H. apply Z.ltb_ge in H.
  destruct (tier_of x) as [tx|], (tier_of y) as [ty|]; try exact I; lia.
Qed.

Lemma badge_order_trans (a b c : ModelEntry) :
  badge_order a b -> badge_order b c -> badge_order a c.
Proof.
  unfold badge_order.
  destruct (tier_of a), (tier_of b), (tier_of c); try tauto; lia.
Qed.

Lemma insert_sorted (x : ModelEntry) (l : list ModelEntry) :
  StronglySorted badge_order l ->
  StronglySorted badge_order (insert localeCompare x l).
Proof.
  induction 1 as [|y l S IH F]; simpl.
  - constructor; constructor.
  - destruct (0 <? compareModels localeCompare x y)%Z eqn:C.
    + constructor; [exact IH|].
      apply Forall_forall. intros z Hz. apply insert_in in Hz.
      destruct Hz as [->|Hz]; [now apply after_positive|].
      rewrite Forall_forall in F. now apply F.
    + apply before_nonpositive in C.
      constructor; [now constructor|].
      constructor; [exact C|].
      apply Forall_forall. intros z Hz.
      rewrite Forall_forall in F.
      exact (badge_order_trans x y z C (F z Hz)).
Qed.

Lemma toSorted_sorted (l : list ModelEntry) :
  StronglySorted badge_order (toSorted localeCompare l).
Proof.
  induction l as [|x l IH]; simpl; [constructor | now apply insert_sorted].
Qed.

Lemma insert_count (f : ModelEntry -> bool) (x : ModelEntry)
    (l : list ModelEntry) :
  List.length (filter f (insert localeCompare x l))
  = List.length (filter f (x :: l)).
Proof.
  induction l as [|y l IH]; [reflexivity|].
  cbn [insert].
  destruct (0 <? compareModels localeCompare x y)%Z; [|reflexivity].
  simpl in *. destruct (f x), (f y); simpl in *; lia.
Qed.

Lemma toSorted_count (f : ModelEntry -> bool) (l : list ModelEntry) :
  List.length (filter f (toSorted localeCompare l))
  = List.length (filter f l).
Proof.
  induction l as [|x l IH]; [reflexivity|].
  cbn [toSorted]. rewrite insert_count. simpl.
  destruct (f x); simpl; now rewrite IH.
Qed.

End Sorting.

(** The model list shows every model of the chosen provider (all models
    when none is chosen) as often as it was given, badged models first in
    the order ultra, pro, fast, whatever the locale's order of names. *)
Theorem filtered_models_order (localeCompare : string -> string -> Z)
    (models : list ModelEntry) (filterProvider : option string) :
  let shown := filteredModels localeCompare models filterProvider in
  StronglySorted badge_order shown /\
  (forall f : ModelEntry -> bool,
     List.length (filter f shown)
     = List.length
         (filter f
            (match filterProvider with
             | Some p =>
                 if truthy p then filter (fun m => provider m =? p) models
                 else models
             | None => models
             end))) /\
  (forall p m, filterProvider = Some p -> p <> "" -> In m shown ->
               provider m = p).
Proof.
  unfold filteredModels. cbv zeta. split; [|split].
  - apply toSorted_sorted.
  - intros f. apply toSorted_count.
  - intros p m -> N Hin.
    destruct p as [|c p]; [contradiction N; reflexivity|].
    cbn [truthy] in Hin.
    assert (forall l, In m (toSorted localeCompare l) -> In m l) as Sub.
    { induction l as [|x l IH]; simpl; [tauto|].
      intros H. apply insert_in in H. destruct H as [->|H]; auto. }
    apply Sub in Hin. apply filter_In in Hin. destruct Hin as [_ E].
    now apply String.eqb_eq in E.
Qed.

(** The comparator of the model list is one [sort] can work with whenever
    the locale's comparison of names is: swapping the arguments swaps the
    sign and "not after" is transitive. *)
Theorem compareModels_is_consistent (localeCompare : string -> string -> Z) :
  consistent_comparator localeCompare ->
  consistent_comparator (compareModels localeCompare).
Proof.
  intros [Anti Trans]. unfold consistent_comparator, compareModels. split.
  - intros a b.
    destruct (tier_of a) as [ta|], (tier_of b) as [tb|];
      try (split; lia). apply Anti.
  - intros a b c.
    destruct (tier_of a) as [ta|], (tier_of b) as [tb|],
             (tier_of c) as [tc|]; try lia.
    apply Trans.
Qed.

Lemma compareModels_is_consistent_witness :
  consistent_comparator (compareModels by_length).
Proof.
  apply (compareModels_is_consistent by_length).
  unfold consistent_comparator, by_length. split; intros; lia.
Defined.

(** The key the desktop app is asked to store is the typed key without
    its surrounding white space, and never empty.  A blank entry is not
    submitted.  Otherwise [handleSubmit] passes the trimmed key on, and
    [saveApiKey], where the desktop API is there, begins by asking it to
    store exactly that key for the chosen provider; it asks once, and not
    at all without the desktop API. *)
Theorem typed_key_is_stored_trimmed (gw : Gateway)
    (provider typed : string) :
  match handleSubmit typed with
  | None => trim typed = ""
  | Some key =>
      key = trim typed /\ key <> "" /\
      exists rest,
        fst (saveApiKey gw provider key [])
        = ((if desktop_api gw
            then [SetApiKey provider (trim typed)] else []) ++ rest)%list /\
        Forall (fun r => is_set_api_key r = false) rest
  end.
Proof.
  unfold handleSubmit. cbv zeta.
  destruct (trim typed) as [|c r] eqn:T; cbn [truthy]; [reflexivity|].
  split; [reflexivity|]. split; [discriminate|].
  rewrite <- T. unfold saveApiKey.
  rewrite trim_idempotent, T. cbn [truthy negb].
  flow_paths gw;
    (eexists; split; [reflexivity | repeat constructor]).
Qed.

End PagesFacts.


(* ================================================================== *)
(** ** The settings tab and the consent screen *)
(* ================================================================== *)

Module OtherTabFacts.
Import JsString Welcome OtherTab.

(** The terminal sidebar switch survives a reload exactly when local
    storage can be used: the next mount starts with the value last
    toggled, or hidden when storage access throws.  The toggle touches no
    other key and always announces the change. *)
Theorem terminal_sidebar_round_trip (v : bool) (ls : LocalStorage) :
  let '(visible, ls', events) := toggle v ls in
  visible = v /\
  initial_visible ls' = (if denied ls then false else v) /\
  (forall k, k <> TERMINAL_SIDEBAR_KEY -> items ls' k = items ls k) /\
  events = ["terminal-sidebar-changed"].
Proof.
  unfold toggle, initial_visible.
  destruct (denied ls) eqn:D; simpl; rewrite D.
  - repeat split.
  - repeat split; [now destruct v|].
    intros k N. destruct (k =? TERMINAL_SIDEBAR_KEY) eqn:E;
      [apply String.eqb_eq in E; contradiction | reflexivity].
Qed.

(** None of the three handlers restarts the app or wipes its data unless
    the user said yes to the confirmation shown just before; and the two
    state directory handlers offer the restart only after the override
    was sent. *)
Theorem drastic_calls_need_confirmation (h : Handler)
    (api : option DesktopApi) (ok : bool) (v : View) :
  existsb is_drastic (snd (handle h api ok v)) = true ->
  ok = true /\
  exists before after,
    snd (handle h api ok v) = (before ++ Confirm :: after)%list /\
    forallb (fun c => negb (is_drastic c)) before = true /\
    (h <> ResetAndCloseData -> existsb is_override before = true).
Proof.
  destruct h; unfold handle.
  - unfold changeStateDir.
    destruct api as [a|]; [|intros X; discriminate X].
    destruct (pickStateDirFolder a) as [[pick|e]|];
      destruct (setStateDirOverride a) as [set|];
      try (intros X; discriminate X).
    destruct (pick_path pick) as [path|]; [|intros X; discriminate X].
    destruct (negb (pick_ok pick) || negb (truthy path));
      [intros X; discriminate X|].
    destruct (set path) as [res|e]; [|intros X; discriminate X].
    destruct (set_ok res); cbn [negb]; [|intros X; discriminate X].
    destruct (needsRestart res); [|intros X; discriminate X].
    destruct ok; [|intros X; discriminate X].
    intros _. split; [reflexivity|].
    exists [OnError None; PickStateDirFolder; SetStateDirOverride path],
           [Retry].
    repeat split.
  - unfold resetStateDir.
    destruct api as [a|]; [|intros X; discriminate X].
    destruct (setStateDirOverride a) as [set|];
      [|intros X; discriminate X].
    destruct (set "") as [res|e]; [|intros X; discriminate X].
    destruct (set_ok res); cbn [negb]; [|intros X; discriminate X].
    destruct ok; [|intros X; discriminate X].
    intros _. split; [reflexivity|].
    exists [OnError None; SetStateDirOverride ""], [Retry].
    repeat split.
  - unfold resetAndClose.
    destruct api as [a|]; [|intros X; discriminate X].
    destruct ok; cbn [negb]; [|intros X; discriminate X].
    intros _. split; [reflexivity|].
    destruct (resetAndClose_rejects a) as [err|].
    + exists [], [OnError None; ResetAndClose; OnError (Some err)].
      repeat split. intros N. contradiction N. reflexivity.
    + exists [], [OnError None; ResetAndClose].
      repeat split. intros N. contradiction N. reflexivity.
Qed.

Lemma drastic_calls_need_confirmation_witness :
  true = true /\
  exists before after,
    snd (handle ChangeStateDir (Some obliging) true (mkView false false ""))
      = (before ++ Confirm :: after)%list /\
    forallb (fun c => negb (is_drastic c)) before = true /\
    (ChangeStateDir <> ResetAndCloseData ->
     existsb is_override before = true).
Proof.
  apply (drastic_calls_need_confirmation ChangeStateDir (Some obliging)
           true (mkView false false "")).
  reflexivity.
Defined.

End OtherTabFacts.

Module ConsentScreenFacts.
Import ConsentScreen.

(** [accept] returned without calling the API. *)
Ltac accept_quiet :=
  cbn [busy checked error];
  repeat match goal with
         | H : busy _ = _ |- _ => rewrite H
         | H : checked _ = _ |- _ => rewrite H
         end;
  split; [reflexivity|]; split; [reflexivity|];
  split; [intros []|]; intros N; contradiction N; reflexivity.

Ltac no_callback H :=
  simpl in H; repeat (destruct H as [H|H]; try discriminate H);
  contradiction.

(** A call of the API failed before the callback. *)
Ltac accept_failed :=
  cbn [busy checked error];
  split; [reflexivity|]; split; [reflexivity|];
  split; [intros H; no_callback H|];
  intros _; split;
    [intros X; discriminate X | intros [H _]; no_callback H].

(** [accept] hands control to the parent only when the box was ticked,
    no other attempt was running, recording the consent succeeded and,
    where the API can start the gateway, that succeeded too.  Once it has
    called the API it shows no error exactly when the parent's callback ran
    through, and it never leaves the screen busy unless it found it so. *)
Theorem accept_calls_back_only_after_consent
    (api : option ConsentDesktopApi) (onAccepted : option string)
    (s : Screen) :
  let '(s', calls) := accept api onAccepted s in
  busy s' = busy s /\
  checked s' = checked s /\
  (In OnAccepted calls ->
   checked s = true /\ busy s = false /\
   exists a,
     api = Some a /\ acceptConsent a = Some None /\
     (startGateway a = None /\ calls = [AcceptConsent; OnAccepted] \/
      startGateway a = Some None /\
      calls = [AcceptConsent; StartGateway; OnAccepted])) /\
  (calls <> [] ->
   (error s' = None <-> In OnAccepted calls /\ onAccepted = None)).
Proof.
  unfold accept.
  destruct (checked s) eqn:C, (busy s) eqn:B; cbn [negb orb];
    try (accept_quiet; fail).
  destruct api as [a|]; [|accept_quiet].
  destruct (acceptConsent a) as [[err|]|] eqn:A;
    [accept_failed| |accept_quiet].
  destruct (startGateway a) as [[err|]|] eqn:G; [accept_failed| |].
  - destruct onAccepted as [err|]; cbn [app busy checked error];
      (split; [reflexivity|]); (split; [reflexivity|]);
      (split; [intros _; split; [reflexivity|]; split; [reflexivity|];
               exists a; split; [reflexivity|]; split; [exact A|];
               right; split; [exact G | reflexivity]|]);
      intros _; split.
    + intros X; discriminate X.
    + intros [_ X]; discriminate X.
    + intros _. split; [simpl; tauto | reflexivity].
    + reflexivity.
  - destruct onAccepted as [err|]; cbn [app busy checked error];
      (split; [reflexivity|]); (split; [reflexivity|]);
      (split; [intros _; split; [reflexivity|]; split; [reflexivity|];
               exists a; split; [reflexivity|]; split; [exact A|];
               left; split; [exact G | reflexivity]|]);
      intros _; split.
    + intros X; discriminate X.
    + intros [_ X]; discriminate X.
    + intros _. split; [simpl; tauto | reflexivity].
    + reflexivity.
Qed.

End ConsentScreenFacts.
